(** * torch_exid: the iteration state machine of [ExtendedIterableDataset]

    A shallow embedding of [src/torch_exid/exid.py].  The class wraps a
    user-supplied [generator()] with offset skipping, a limit gate, a chain of
    transforms and a shuffle buffer.  Its three nested Python generators
    ([generator_with_buffer] driving [generator_with_conditions] and
    [flush_buffer]) are modelled as one labelled transition system over the
    object's two mutable attributes, [counter] and [buffer]; the labels record
    the gate evaluations, the pulls from the source and the two levels of
    [yield].

    Python's [int] is [Z] and its lists are lists.  Items are of one type
    [A]; transforms are total functions on it.  A subclass's [generator] is a
    generator function: calling it gives a fresh generator and runs none of
    its body, so a source fails or ends only when it is pulled.  Python's
    [random] module is an interface, [RandomLib]; its Mersenne Twister is
    given as an instance, for the runs that are evaluated. *)

From Stdlib Require Import ZArith Zdivisibility String Lia.
From stdpp Require Import base list numbers.

Local Open Scope Z_scope.

(** ** Python exceptions and the source generator *)

(** The exceptions that occur in the code and its tests.  [StopIteration] is
    not among them: it is the end-of-sequence signal of the iterator
    protocol and has its own constructor in [pulled]. *)
Inductive exn : Type :=
  | ValueError (msg : string)
  | NotImplementedError (msg : string)
  | AttributeError (attr : string)
  | OtherError (code : Z).

(** What [next(gen)] gives: an item and the advanced generator, the end of
    the sequence, or an exception that escapes the generator's body. *)
Inductive pulled (A G : Type) : Type :=
  | Item (x : A) (g : G)
  | StopIteration
  | Raised (e : exn).
Arguments Item {A G} x g.
Arguments StopIteration {A G}.
Arguments Raised {A G} e.

(** A subclass's [generator] method: calling it returns a fresh generator
    object ([generator]), and [next] advances one. *)
Record Source (A : Type) : Type := MkSource {
  gen : Type;
  generator : gen;
  next : gen -> pulled A gen
}.
Arguments MkSource {A} gen generator next.
Arguments gen {A} _.
Arguments generator {A} _.
Arguments next {A} _ _.

(** ** The standard library's [random.Random]

    [Random(seed)] builds a generator from a seed, and [shuffle] draws from
    it through [_randbelow(n)], which returns an integer below [n]. *)
Class RandomLib : Type := {
  rng : Type;
  Random : Z -> rng;
  randbelow : rng -> nat -> nat * rng;
  randbelow_lt : forall g n, (0 < n)%nat -> (fst (randbelow g n) < n)%nat
}.

Section Shuffle.
Context {R : RandomLib} {A : Type}.

(** [x[i], x[j] = x[j], x[i]] *)
Definition swap (x : list A) (i j : nat) : list A :=
  match x !! i, x !! j with
  | Some a, Some b => <[j := a]> (<[i := b]> x)
  | _, _ => x
  end.

(** [for i in reversed(range(1, len(x))): j = randbelow(i + 1); swap].
    The argument is the number of iterations left, so that the index of the
    current one is that number itself. *)
Fixpoint shuffle_loop (i : nat) (g : rng) (x : list A) : list A :=
  match i with
  | O => x
  | S i' => let (j, g') := randbelow g (S i) in
            shuffle_loop i' g' (swap x i j)
  end.

Definition shuffle (g : rng) (x : list A) : list A :=
  shuffle_loop (length x - 1) g x.
End Shuffle.

(** ** Configuration and run state *)

Record Config (A : Type) : Type := MkConfig {
  shuffle_buffer : Z;
  shuffle_seed : Z;
  offset : Z;
  limit : Z;
  transforms : list (A -> A)
}.
Arguments MkConfig {A} _ _ _ _ _.
Arguments shuffle_buffer {A} _.
Arguments shuffle_seed {A} _.
Arguments offset {A} _.
Arguments limit {A} _.
Arguments transforms {A} _.

Record RunState (A : Type) : Type := MkState {
  counter : Z;
  buffer : list A
}.
Arguments MkState {A} _ _.
Arguments counter {A} _.
Arguments buffer {A} _.

(** [not transforms]: [None] and the empty list are falsy. *)
Definition falsy {A : Type} (transforms : option (list A)) : bool :=
  match transforms with
  | None | Some [] => true
  | Some (_ :: _) => false
  end.

(** [__init__].  [entropy] stands for the value of
    [Random().randint(0, 999331)], drawn when no seed is given. *)
Definition init {A : Type}
    (shuffle_buffer : Z) (shuffle_seed : option Z) (offset limit : Z)
    (transforms : option (list (A -> A))) (transforms_required : bool)
    (entropy : Z) : exn + Config A * RunState A :=
  if transforms_required && falsy transforms then
    inl (ValueError
      "ExtendedIterableDataset requires transforms in order to avoid bugs. Please read the comment above"%string)
  else
    inr (MkConfig shuffle_buffer
           (match shuffle_seed with Some s => s | None => entropy end)
           offset limit
           (match transforms with Some t => t | None => [] end),
         MkState 0 []).

(** The run state [__init__] leaves. *)
Definition fresh {A : Type} : RunState A := MkState 0 [].

(** ** Labels of the transition system *)

Inductive outcome (A : Type) : Type :=
  | GotItem (x : A)
  | GotStop
  | GotRaise (e : exn).
Arguments GotItem {A} x.
Arguments GotStop {A}.
Arguments GotRaise {A} e.

Inductive event (A : Type) : Type :=
  | EvGate (b : bool)          (* [limit_allows_one_more] evaluated to [b] *)
  | EvPull (o : outcome A)     (* [next(gen)] *)
  | EvKeep (y : A)             (* [yield self.transform_x(x)], line 160 *)
  | EvEmit (y : A).            (* a [yield] to the consumer, line 127 or 191 *)
Arguments EvGate {A} b.
Arguments EvPull {A} o.
Arguments EvKeep {A} y.
Arguments EvEmit {A} y.

(** Where the composite generator stands:
    - [Created]: [__iter__] was called, no body has started;
    - [Pulling g]: at the head of [while True], the source standing at [g];
    - [Yielded g]: suspended at line 191, the inner generator at line 160;
    - [Flushing i k]: in [flush_buffer], its list iterator at index [i];
      [k] is [Some g] when the flush was called from line 184 (the inner
      generator waits at line 160 with the source at [g]) and [None] when it
      was called from line 187;
    - [Returned]: exhausted;
    - [Failed e]: left by the exception [e]. *)
Inductive pc (G : Type) : Type :=
  | Created
  | Pulling (g : G)
  | Yielded (g : G)
  | Flushing (i : nat) (k : option G)
  | Returned
  | Failed (e : exn).
Arguments Created {G}.
Arguments Pulling {G} g.
Arguments Yielded {G} g.
Arguments Flushing {G} i k.
Arguments Returned {G}.
Arguments Failed {G} e.

Section Pipeline.
Context {R : RandomLib} {A : Type}.
Variable cfg : Config A.
Variable src : Source A.

#[local] Abbreviation G := (gen src).
#[local] Abbreviation machine := (pc G * RunState A)%type.

Definition limit_allows_one_more (st : RunState A) : bool :=
  if limit cfg <? 0 then true
  else counter st <? limit cfg + offset cfg.

Definition transform_x (x : A) : A :=
  fold_left (fun x transform => transform x) (transforms cfg) x.

(** [self.counter += 1] *)
Definition count (st : RunState A) : RunState A :=
  MkState (counter st + 1) (buffer st).

(** [self.buffer.append(x)] *)
Definition append (y : A) (st : RunState A) : RunState A :=
  MkState (counter st) (buffer st ++ [y]).

(** Line 124: [Random(self.shuffle_seed).shuffle(self.buffer)]. *)
Definition flush_buffer_shuffle (st : RunState A) : RunState A :=
  MkState (counter st) (shuffle (Random (shuffle_seed cfg)) (buffer st)).

(** Line 129: [self.buffer = []]. *)
Definition flush_buffer_clear (st : RunState A) : RunState A :=
  MkState (counter st) [].

(** Lines 194-195. *)
Definition reset (st : RunState A) : RunState A := MkState 0 [].

(** One iteration of [while True] in [generator_with_conditions]. *)
Inductive gwc_result : Type :=
  | GwcYield (y : A) (g : G)               (* suspends at line 160 *)
  | GwcContinue (g : G) (st : RunState A)  (* line 158 *)
  | GwcReturn                              (* [break] *)
  | GwcRaise (e : exn).

Definition generator_with_conditions (g : G) (st : RunState A)
  : list (event A) * gwc_result :=
  if negb (limit_allows_one_more st) then
    ([EvGate false], GwcReturn)
  else
    match next src g with
    | StopIteration => ([EvGate true; EvPull GotStop], GwcReturn)
    | Raised e => ([EvGate true; EvPull (GotRaise e)], GwcRaise e)
    | Item x g' =>
        if counter st <? offset cfg then
          ([EvGate true; EvPull (GotItem x)], GwcContinue g' (count st))
        else
          let y := transform_x x in
          ([EvGate true; EvPull (GotItem x); EvKeep y], GwcYield y g')
    end.

(** [generator_with_buffer] once its [for] loop is over: lines 186-195. *)
Definition after_loop (st : RunState A) : machine :=
  if shuffle_buffer cfg >? 1 then
    if Z.of_nat (length (buffer st)) >? 0 then
      (Flushing 0 None, flush_buffer_shuffle st)
    else (Returned, reset st)
  else (Returned, reset st).

(** [generator_with_buffer] asking its inner generator for one more item. *)
Definition generator_with_buffer (g : G) (st : RunState A)
  : list (event A) * machine :=
  match generator_with_conditions g st with
  | (evs, GwcReturn) => (evs, after_loop st)
  | (evs, GwcRaise e) => (evs, (Failed e, st))
  | (evs, GwcContinue g' st') => (evs, (Pulling g', st'))
  | (evs, GwcYield y g') =>
      if shuffle_buffer cfg >? 1 then
        let st' := append y st in
        if Z.of_nat (length (buffer st')) >=? shuffle_buffer cfg then
          (evs, (Flushing 0 (Some g'), flush_buffer_shuffle st'))
        else (evs, (Pulling g', count st'))
      else (evs ++ [EvEmit y], (Yielded g', st))
  end.

(** One transition.  A suspended generator resumes after its [yield]:
    line 162 increments the counter, and the list iterator of
    [flush_buffer] moves on. *)
Definition step (m : machine) : option (list (event A) * machine) :=
  let (p, st) := m in
  match p with
  | Created => Some ([], (Pulling (generator src), st))
  | Pulling g => Some (generator_with_buffer g st)
  | Yielded g => Some ([], (Pulling g, count st))
  | Flushing i k =>
      match buffer st !! i with
      | Some y => Some ([EvEmit y], (Flushing (S i) k, st))
      | None =>
          let st' := flush_buffer_clear st in
          match k with
          | Some g => Some ([], (Pulling g, count st'))
          | None => Some ([], (Returned, reset st'))
          end
      end
  | Returned | Failed _ => None
  end.

(** The consumer drives the generator until it ends or [fuel] is used up. *)
Fixpoint run (fuel : nat) (m : machine) : list (event A) * machine :=
  match fuel with
  | O => ([], m)
  | S fuel' =>
      match step m with
      | None => ([], m)
      | Some (evs, m') =>
          let (tr, m'') := run fuel' m' in (evs ++ tr, m'')
      end
  end.

(** [__iter__] *)
Definition iter (st : RunState A) : machine := (Created, st).

(** The reflexive and transitive closure of [step], with its trace. *)
Inductive steps : machine -> list (event A) -> machine -> Prop :=
  | steps_refl m : steps m [] m
  | steps_cons m evs m1 tr m2 :
      step m = Some (evs, m1) -> steps m1 tr m2 ->
      steps m (evs ++ tr) m2.
End Pipeline.

(** The items a trace hands to the consumer, those the inner generator
    yields, and the outcomes of the pulls. *)
Definition emitted {A : Type} (tr : list (event A)) : list A :=
  omap (fun ev => match ev with EvEmit y => Some y | _ => None end) tr.

Definition kept {A : Type} (tr : list (event A)) : list A :=
  omap (fun ev => match ev with EvKeep y => Some y | _ => None end) tr.

Definition pulls {A : Type} (tr : list (event A)) : list (outcome A) :=
  omap (fun ev => match ev with EvPull o => Some o | _ => None end) tr.

(** [list(ds)]: a traversal to exhaustion.  It gives the items in order, or
    the exception that ended it; with too little [fuel] it is not over. *)
Inductive listed (A : Type) : Type :=
  | Listed (out : list A)
  | Raising (e : exn)
  | Unfinished.
Arguments Listed {A} out.
Arguments Raising {A} e.
Arguments Unfinished {A}.

Definition list_of {R : RandomLib} {A : Type} (cfg : Config A)
    (src : Source A) (fuel : nat) (st : RunState A) : listed A * RunState A :=
  let (tr, m) := run cfg src fuel (iter src st) in
  (match fst m with
   | Returned => Listed (emitted tr)
   | Failed e => Raising e
   | _ => Unfinished
   end, snd m).

(** ** Python's Mersenne Twister

    The generator behind [random.Random], for the runs that are evaluated. *)
Module Mersenne.
(** CPython's generator: [init_genrand], [init_by_array], [random_seed],
    [genrand_uint32] and [getrandbits] of Modules/_randommodule.c, and
    [_randbelow_with_getrandbits] of Lib/random.py.  The state is the array
    [mt] of 624 words and the position [mti] in it. *)
Definition N : nat := 624.
Definition M : nat := 397.

Definition u32 (z : Z) : Z := Z.land z 4294967295.

Record state : Type := MkMT { mt : list Z; mti : nat }.

(** [init_genrand(s)] *)
Fixpoint init_genrand_loop (n : nat) (i prev : Z) : list Z :=
  match n with
  | O => []
  | S n' =>
      let v := u32 (1812433253 * Z.lxor prev (Z.shiftr prev 30) + i) in
      v :: init_genrand_loop n' (i + 1) v
  end.

Definition init_genrand (s : Z) : list Z :=
  u32 s :: init_genrand_loop (N - 1) 1 (u32 s).

Definition wrap (a : list Z) (i : nat) : list Z * nat :=
  if (N <=? i)%nat then (<[0%nat := a !!! (N - 1)%nat]> a, 1%nat) else (a, i).

(** The first loop of [init_by_array]. *)
Fixpoint init_by_array_mix (k : nat) (key : list Z) (a : list Z) (i j : nat)
  : list Z * nat :=
  match k with
  | O => (a, i)
  | S k' =>
      let prev := a !!! (i - 1)%nat in
      let v := u32 (Z.lxor (a !!! i) (Z.lxor prev (Z.shiftr prev 30) * 1664525)
                    + key !!! j + Z.of_nat j) in
      let (a', i') := wrap (<[i := v]> a) (S i) in
      let j' := if (length key <=? S j)%nat then 0%nat else S j in
      init_by_array_mix k' key a' i' j'
  end.

(** The second loop of [init_by_array]. *)
Fixpoint init_by_array_finish (k : nat) (a : list Z) (i : nat) : list Z :=
  match k with
  | O => a
  | S k' =>
      let prev := a !!! (i - 1)%nat in
      let v := u32 (Z.lxor (a !!! i) (Z.lxor prev (Z.shiftr prev 30) * 1566083941)
                    - Z.of_nat i) in
      let (a', i') := wrap (<[i := v]> a) (S i) in
      init_by_array_finish k' a' i'
  end.

Definition init_by_array (key : list Z) : state :=
  let (a, i) := init_by_array_mix (N `max` length key) key
                  (init_genrand 19650218) 1 0 in
  MkMT (<[0%nat := 2147483648]> (init_by_array_finish (N - 1) a i)) N.

(** [random_seed] for an [int]: the 32-bit words of its absolute value,
    least significant first. *)
Definition key_of (seed : Z) : list Z :=
  let n := Z.abs seed in
  let words := S (Z.to_nat (Z.log2 n / 32)) in
  (fun k : nat => u32 (Z.shiftr n (32 * Z.of_nat k))) <$> seq 0 words.

Definition seed (a : Z) : state := init_by_array (key_of a).

Definition twist_at (a : list Z) (kk : nat) : list Z :=
  let y := Z.lor (Z.land (a !!! kk) 2147483648)
                 (Z.land (a !!! ((kk + 1) mod N)%nat) 2147483647) in
  <[kk := Z.lxor (Z.lxor (a !!! ((kk + M) mod N)%nat) (Z.shiftr y 1))
                 (if Z.odd y then 2567483615 else 0)]> a.

Definition twist (a : list Z) : list Z := foldl twist_at a (seq 0 N).

Definition temper (y : Z) : Z :=
  let y := Z.lxor y (Z.shiftr y 11) in
  let y := Z.lxor y (Z.land (Z.shiftl y 7) 2636928640) in
  let y := Z.lxor y (Z.land (Z.shiftl y 15) 4022730752) in
  Z.lxor y (Z.shiftr y 18).

Definition genrand_uint32 (g : state) : Z * state :=
  let (a, i) := if (N <=? mti g)%nat then (twist (mt g), 0%nat)
                else (mt g, mti g) in
  (temper (a !!! i), MkMT a (S i)).

(** [getrandbits(k)], word by word. *)
Fixpoint getrandbits_words (words : nat) (k : Z) (g : state) : Z * state :=
  match words with
  | O => (0, g)
  | S words' =>
      let (r, g1) := genrand_uint32 g in
      let r := if k <? 32 then Z.shiftr r (32 - k) else r in
      let (hi, g2) := getrandbits_words words' (k - 32) g1 in
      (r + Z.shiftl hi 32, g2)
  end.

Definition getrandbits (k : Z) (g : state) : Z * state :=
  getrandbits_words (S (Z.to_nat ((k - 1) / 32))) k g.

Definition bit_length (n : Z) : Z := if n =? 0 then 0 else Z.log2 n + 1.

(** [r = getrandbits(k); while r >= n: r = getrandbits(k)].  Each draw is
    below [n] with probability above one half; the loop is cut after
    [fuel] further draws. *)
Fixpoint randbelow_loop (fuel : nat) (n k : Z) (g : state) : Z * state :=
  let (r, g') := getrandbits k g in
  if r <? n then (r, g')
  else match fuel with
       | O => (0, g')
       | S fuel' => randbelow_loop fuel' n k g'
       end.

Definition randbelow_with_getrandbits (g : state) (n : nat) : nat * state :=
  let (r, g') := randbelow_loop 1000 (Z.of_nat n) (bit_length (Z.of_nat n)) g in
  (Z.to_nat r, g').

Lemma randbelow_loop_lt (fuel : nat) (n k : Z) (g : state) :
  0 < n -> fst (randbelow_loop fuel n k g) < n.
Proof.
  intros Hn. revert g. induction fuel as [|fuel IH]; intros g; simpl;
    destruct (getrandbits k g) as [r g'];
    destruct (Z.ltb_spec r n); simpl; auto.
Qed.

Lemma randbelow_with_getrandbits_lt (g : state) (n : nat) :
  (0 < n)%nat -> (fst (randbelow_with_getrandbits g n) < n)%nat.
Proof.
  intros Hn. unfold randbelow_with_getrandbits.
  pose proof (randbelow_loop_lt 1000 (Z.of_nat n) (bit_length (Z.of_nat n)) g).
  destruct (randbelow_loop 1000 (Z.of_nat n) (bit_length (Z.of_nat n)) g).
  simpl in *. lia.
Qed.

#[export] Instance lib : RandomLib :=
  {| rng := state; Random := seed; randbelow := randbelow_with_getrandbits;
     randbelow_lt := randbelow_with_getrandbits_lt |}.
End Mersenne.

(** ** The datasets of the test suite *)

Module Tests.
(** [IntegersDataset.generator] of tests/test_basics.py: [n = 0], then
    [yield n; n += 1] for ever.  The generator object is its local [n]. *)
Definition IntegersDataset : Source Z :=
  MkSource Z 0 (fun n => Item n (n + 1)).

(** The pipeline a test builds: the keyword arguments it passes, no
    transforms.  Where a test gives no seed, [shuffle_seed] is the one
    [__init__] drew. *)
Definition dataset (shuffle_buffer shuffle_seed offset limit : Z) : Config Z :=
  MkConfig shuffle_buffer shuffle_seed offset limit [].

(** The names [self.<name>] resolves on an instance of the class: the
    attributes [__init__] sets, and the methods and the property the class
    body defines.  (The base class, torch's [IterableDataset], has no
    [skip_next] either.) *)
Definition attributes : list string :=
  ["shuffle_buffer"; "shuffle_seed"; "buffer"; "offset"; "limit"; "counter";
   "transforms"; "__init__"; "generator"; "limit_allows_one_more";
   "transform_x"; "flush_buffer"; "generator_with_conditions";
   "generator_with_buffer"; "__iter__"]%string.

(** [self.<name>()] as a statement: an unknown name raises. *)
Definition call_method (name : string) : exn + unit :=
  if existsb (String.eqb name) attributes then inr tt
  else inl (AttributeError name).

(** [EvensDataset.generator] of tests/test_skip.py: [n = 0], then for ever
    [if n % 2 != 0: self.skip_next()], [yield n], [n += 1]. *)
Definition EvensDataset : Source Z :=
  MkSource Z 0
    (fun n =>
       if negb (n mod 2 =? 0) then
         match call_method "skip_next" with
         | inl e => Raised e
         | inr _ => Item n (n + 1)
         end
       else Item n (n + 1)).

(** [yield from range(stop)]: a source that ends. *)
Definition RangeDataset (stop : Z) : Source Z :=
  MkSource Z 0 (fun n => if n <? stop then Item n (n + 1) else StopIteration).

(** A source that fails: it yields the integers below [stop] and then raises
    an error of its own. *)
Definition FailingDataset (stop : Z) : Source Z :=
  MkSource Z 0
    (fun n => if n <? stop then Item n (n + 1) else Raised (OtherError n)).
End Tests.

(** ** The primality test of tests/test_primes.py *)

Module Primes.
(** [range(start, stop, step)] for a positive [step]. *)
Definition range (start stop step : Z) : list Z :=
  (fun k => start + step * k) <$> seqZ 0 ((stop - start + step - 1) / step).

(** [PrimesDataset.is_prime]; [math.isqrt] is [Z.sqrt], and the [for] loop
    that returns [False] at the first divisor is a [forallb]. *)
Definition is_prime (n : Z) : bool :=
  if n <=? 1 then false
  else if n =? 2 then true
  else if n mod 2 =? 0 then false
  else forallb (fun i => negb (n mod i =? 0)) (range 3 (Z.sqrt n + 1) 2).
End Primes.

(** ** Notions the properties are stated with *)

Definition is_emit {A : Type} (ev : event A) : bool :=
  match ev with EvEmit _ => true | _ => false end.

(** What a pull records of the answer of [next(gen)]. *)
Definition outcome_of {A G : Type} (r : pulled A G) : outcome A :=
  match r with
  | Item x _ => GotItem x
  | StopIteration => GotStop
  | Raised e => GotRaise e
  end.

(** The shape of a trace, read by a two-state automaton: [expect] holds
    between a gate that allowed a pull and that pull. *)
Fixpoint gated {A : Type} (expect : bool) (tr : list (event A)) : bool :=
  match tr with
  | [] => negb expect
  | ev :: tr' =>
      match ev with
      | EvGate true => negb expect && gated true tr'
      | EvGate false => negb expect && forallb is_emit tr'
      | EvPull _ => expect && gated false tr'
      | _ => negb expect && gated false tr'
      end
  end.

(** The number of items a trace pulls from the source. *)
Definition items {A : Type} (tr : list (event A)) : Z :=
  Z.of_nat (length (omap (fun ev => match ev with
                                    | EvPull (GotItem x) => Some x
                                    | _ => None
                                    end) tr)).

(** The first [n] pulls of a generator, when all of them give an item. *)
Fixpoint first_items {A : Type} (src : Source A) (n : nat) (g : gen src)
  : option (list A) :=
  match n with
  | O => Some []
  | S n' =>
      match next src g with
      | Item x g' => cons x <$> first_items src n' g'
      | _ => None
      end
  end.

(** The trace of skipping the items [xs]. *)
Definition skipped {A : Type} (xs : list A) : list (event A) :=
  xs ≫= (fun x => [EvGate true; EvPull (GotItem x)]).

(** The permutation of positions a generator applies to lists of length [n]. *)
Definition index_permutation {R : RandomLib} (g : rng) (n : nat) : list nat :=
  shuffle g (seq 0 n).

(** Where [flush_buffer] hands control back once its list iterator is
    exhausted and line 129 has run. *)
Definition flush_end {A : Type} {G : Type} (k : option G) (st : RunState A)
  : pc G * RunState A :=
  match k with
  | Some g => (Pulling g, MkState (counter st + 1) [])
  | None => (Returned, fresh)
  end.

Section Notions.
Context {A : Type}.
Variable cfg : Config A.
Variable src : Source A.

#[local] Abbreviation machine := (pc (gen src) * RunState A)%type.

(** The final flush, and the end: nothing is pulled from here on. *)
Definition draining (m : machine) : Prop :=
  fst m = Returned \/ exists i, fst m = Flushing i None.

(** What is still to be emitted or flushed. *)
Definition pending (m : machine) : list A :=
  match fst m with
  | Flushing i _ => drop i (buffer (snd m))
  | Returned => []
  | _ => buffer (snd m)
  end.

(** The buffer stays within its size. *)
Definition bounded (m : machine) : Prop :=
  buffer (snd m) = [] \/
  Z.of_nat (length (buffer (snd m))) < shuffle_buffer cfg \/
  ((exists i k, fst m = Flushing i k) /\
   Z.of_nat (length (buffer (snd m))) <= shuffle_buffer cfg).

(** The increment of line 162 a suspended inner generator still owes. *)
Definition owed (m : machine) : Z :=
  match fst m with
  | Yielded _ | Flushing _ (Some _) => 1
  | _ => 0
  end.

(** Nothing buffered and no [yield] under way. *)
Definition idle (m : machine) : Prop :=
  buffer (snd m) = [] /\
  match fst m with
  | Yielded _ | Flushing _ _ => False
  | _ => True
  end.
End Notions.

(** What a test sees that asserts [list(ds)] two times in a row, with
    Python's own generator. *)
Definition twice (cfg : Config Z) (src : Source Z) (fuel : nat)
  : listed Z * listed Z :=
  let (first, st) := list_of (R := Mersenne.lib) cfg src fuel fresh in
  (first, fst (list_of (R := Mersenne.lib) cfg src fuel st)).

(** ** Notions of the further properties *)

(** The items a trace pulls from the source, in order. *)
Definition raw {A : Type} (tr : list (event A)) : list A :=
  omap (fun ev => match ev with
                  | EvPull (GotItem x) => Some x
                  | _ => None
                  end) tr.

(** [os] is what successive pulls give from [g] on: items, and then at most
    one end of sequence or failure, after which nothing is pulled. *)
Fixpoint follows {A : Type} (src : Source A) (g : gen src)
    (os : list (outcome A)) : Prop :=
  match os with
  | [] => True
  | o :: os' =>
      match next src g with
      | Item x g' => o = GotItem x /\ follows src g' os'
      | StopIteration => o = GotStop /\ os' = []
      | Raised e => o = GotRaise e /\ os' = []
      end
  end.

(** The first [n] pulls of a generator and where they leave it, when all of
    them give an item. *)
Fixpoint pull_items {A : Type} (src : Source A) (n : nat) (g : gen src)
  : option (list A * gen src) :=
  match n with
  | O => Some ([], g)
  | S n' =>
      match next src g with
      | Item x g' =>
          match pull_items src n' g' with
          | Some (xs, g'') => Some (x :: xs, g'')
          | None => None
          end
      | _ => None
      end
  end.

(** Where the source stands, while it can still be pulled. *)
Definition position {A : Type} (src : Source A)
    (m : pc (gen src) * RunState A) : option (gen src) :=
  match fst m with
  | Created => Some (generator src)
  | Pulling g | Yielded g | Flushing _ (Some g) => Some g
  | _ => None
  end.

(** A list cut into pieces of [n] items, the last one possibly shorter. *)
Fixpoint chunks_upto {A : Type} (fuel n : nat) (l : list A) : list (list A) :=
  match fuel with
  | O => []
  | S fuel' =>
      match l with
      | [] => []
      | _ :: _ => take n l :: chunks_upto fuel' n (drop n l)
      end
  end.

Definition chunks {A : Type} (n : nat) (l : list A) : list (list A) :=
  chunks_upto (length l) n l.

(** What lines 180-187 make of the items the inner generator yields, the
    buffer holding [buf] to begin with. *)
Fixpoint buffered {R : RandomLib} {A : Type} (cfg : Config A)
    (buf : list A) (ys : list A) : list A :=
  match ys with
  | [] =>
      if Z.of_nat (length buf) >? 0
      then shuffle (Random (shuffle_seed cfg)) buf else []
  | y :: ys' =>
      if Z.of_nat (length (buf ++ [y])) >=? shuffle_buffer cfg
      then shuffle (Random (shuffle_seed cfg)) (buf ++ [y]) ++ buffered cfg [] ys'
      else buffered cfg (buf ++ [y]) ys'
  end.

Section FurtherNotions.
Context {R : RandomLib} {A : Type}.
Variable cfg : Config A.
Variable src : Source A.

#[local] Abbreviation machine := (pc (gen src) * RunState A)%type.

(** What the rest of a run emits, from the items it still keeps. *)
Definition to_emit (m : machine) (ys : list A) : list A :=
  match fst m with
  | Flushing i (Some _) => drop i (buffer (snd m)) ++ buffered cfg [] ys
  | Flushing i None => drop i (buffer (snd m))
  | Returned => []
  | _ => buffered cfg (buffer (snd m)) ys
  end.

(** A bound on the transitions a machine can still make when the limit is
    not negative: three for each further pull the gate can allow, one for
    each item in the buffer, and a few to start and to end. *)
Definition rank (m : machine) : nat :=
  let r := Z.to_nat (limit cfg + offset cfg - (counter (snd m) + owed src m)) in
  let len := length (buffer (snd m)) in
  match fst m with
  | Created | Yielded _ => 3 * r + len + 4
  | Pulling _ => 3 * r + len + 3
  | Flushing i (Some _) => 3 * r + 4 + (len - i)
  | Flushing i None => 1 + (len - i)
  | Returned | Failed _ => 0
  end.

(** The machine can still move, and not towards its end. *)
Definition alive (m : machine) : Prop :=
  match fst m with
  | Created | Pulling _ | Yielded _ | Flushing _ (Some _) => True
  | _ => False
  end.
End FurtherNotions.

(** The way the kept items reach the consumer: as they are, or shuffled
    piece by piece. *)
Definition deliver {R : RandomLib} {A : Type} (cfg : Config A)
    (ys : list A) : list A :=
  if shuffle_buffer cfg >? 1 then
    concat (shuffle (Random (shuffle_seed cfg)) <$>
            chunks (Z.to_nat (shuffle_buffer cfg)) ys)
  else ys.

(** The pipeline with one more transform at the end of the chain, and what
    that transform does to the events, the run state and the result. *)
Definition then_transform {A : Type} (cfg : Config A) (f : A -> A) : Config A :=
  MkConfig (shuffle_buffer cfg) (shuffle_seed cfg) (offset cfg) (limit cfg)
    (transforms cfg ++ [f]).

Definition map_event {A : Type} (f : A -> A) (ev : event A) : event A :=
  match ev with
  | EvKeep y => EvKeep (f y)
  | EvEmit y => EvEmit (f y)
  | EvGate b => EvGate b
  | EvPull o => EvPull o
  end.

Definition map_state {A : Type} (f : A -> A) (st : RunState A) : RunState A :=
  MkState (counter st) (f <$> buffer st).

Definition map_listed {A : Type} (f : A -> A) (r : listed A) : listed A :=
  match r with
  | Listed out => Listed (f <$> out)
  | Raising e => Raising e
  | Unfinished => Unfinished
  end.

(** * Properties *)

(** Turns the boolean tests of the code into propositions [lia] reads. *)
Ltac tests :=
  rewrite ?Z.gtb_ltb, ?Z.geb_leb, ?Z.ltb_lt, ?Z.ltb_ge, ?Z.leb_le, ?Z.leb_gt,
    ?negb_true_iff, ?negb_false_iff in *.

(** ** The shuffle tests of the repository

    [test_shuffle] of tests/test_basics.py, on the model: the four expected
    lists come out, each on a first and on a second traversal. *)

Example test_shuffle_3_42 :
  twice (Tests.dataset 3 42 0 5) Tests.IntegersDataset 20 =
    (Listed [1; 0; 2; 4; 3], Listed [1; 0; 2; 4; 3]).
Proof. vm_compute. reflexivity. Qed.

Example test_shuffle_3_43 :
  twice (Tests.dataset 3 43 0 5) Tests.IntegersDataset 20 =
    (Listed [2; 1; 0; 4; 3], Listed [2; 1; 0; 4; 3]).
Proof. vm_compute. reflexivity. Qed.

Example test_shuffle_10_42 :
  twice (Tests.dataset 10 42 0 5) Tests.IntegersDataset 20 =
    (Listed [3; 1; 2; 4; 0], Listed [3; 1; 2; 4; 0]).
Proof. vm_compute. reflexivity. Qed.

Example test_shuffle_10_43 :
  twice (Tests.dataset 10 43 0 5) Tests.IntegersDataset 20 =
    (Listed [1; 4; 3; 2; 0], Listed [1; 4; 3; 2; 0]).
Proof. vm_compute. reflexivity. Qed.

(** ** Runs *)

Section Runs.
Context {R : RandomLib} {A : Type}.
Variable cfg : Config A.
Variable src : Source A.

#[local] Abbreviation machine := (pc (gen src) * RunState A)%type.

Lemma run_steps fuel m tr m' :
  run cfg src fuel m = (tr, m') -> steps cfg src m tr m'.
Proof.
  revert m tr m'. induction fuel as [|fuel IH]; intros m tr m' Hrun.
  - simpl in Hrun. injection Hrun as <- <-. constructor.
  - simpl in Hrun. destruct (step cfg src m) as [[evs m1]|] eqn:Hstep.
    + destruct (run cfg src fuel m1) as [tr1 m2] eqn:Hrest.
      injection Hrun as <- <-. econstructor; eauto.
    + injection Hrun as <- <-. constructor.
Qed.

Lemma steps_run m tr m' :
  steps cfg src m tr m' -> exists fuel, run cfg src fuel m = (tr, m').
Proof.
  induction 1 as [m|m evs m1 tr m2 Hstep _ [fuel IH]].
  - exists O. reflexivity.
  - exists (S fuel). simpl. rewrite Hstep, IH. reflexivity.
Qed.

Lemma steps_halted m tr m' :
  step cfg src m = None -> steps cfg src m tr m' -> tr = [] /\ m' = m.
Proof. intros Hnone Hs. destruct Hs; [done | congruence]. Qed.

(** A run that has come to a halt is not changed by more fuel. *)
Lemma run_halted fuel m :
  step cfg src m = None -> run cfg src fuel m = ([], m).
Proof. intros H. destruct fuel; simpl; [done | by rewrite H]. Qed.

Lemma run_more fuel fuel' m tr m' :
  run cfg src fuel m = (tr, m') -> step cfg src m' = None ->
  (fuel <= fuel')%nat -> run cfg src fuel' m = (tr, m').
Proof.
  revert fuel' m tr m'.
  induction fuel as [|fuel IH]; intros fuel' m tr m' Hrun Hhalt Hle.
  - simpl in Hrun. injection Hrun as <- <-. by apply run_halted.
  - destruct fuel' as [|fuel']; [lia|]. simpl in *.
    destruct (step cfg src m) as [[evs m1]|]; [|done].
    destruct (run cfg src fuel m1) as [tr1 m2] eqn:Hrest.
    injection Hrun as <- <-.
    rewrite (IH fuel' m1 tr1 m2); [done..|lia].
Qed.

(** A property of machine states that every transition preserves holds
    along every run. *)
Lemma steps_invariant (P : machine -> Prop) :
  (forall m evs m', P m -> step cfg src m = Some (evs, m') -> P m') ->
  forall m tr m', steps cfg src m tr m' -> P m -> P m'.
Proof. intros Hpres m tr m' Hs. induction Hs; eauto. Qed.

(** The only way into [Returned] is through lines 194-195. *)
Lemma step_returned m evs st' :
  step cfg src m = Some (evs, (Returned, st')) -> st' = fresh.
Proof.
  destruct m as [p st]. unfold step, generator_with_buffer, after_loop.
  destruct p as [|g|g|i k| |e]; try done.
  - destruct (generator_with_conditions cfg src g st) as [evs' [y g'|g' st1| |e]];
      repeat case_match; intros; simplify_eq; done.
  - repeat case_match; intros; simplify_eq; done.
Qed.

Lemma steps_returned m tr st' :
  steps cfg src m tr (Returned, st') -> fst m <> Returned -> st' = fresh.
Proof.
  intros Hs. remember (Returned, st') as m' eqn:Em'.
  induction Hs as [m|m evs m1 tr m2 Hstep Hs IH]; intros Hne; subst.
  - done.
  - destruct m1 as [p1 st1].
    assert (p1 = Returned \/ p1 <> Returned) as [->|Hp]
      by (destruct p1; auto; right; discriminate).
    + apply steps_halted in Hs as [_ Heq]; [|done]. simplify_eq.
      by eapply step_returned.
    + by apply IH.
Qed.

(** From index [i] on, a flush yields the rest of the buffer, item by item
    and nothing else, then clears it. *)
Lemma flush_emits (k : option (gen src)) (st : RunState A) (n : nat) :
  forall i : nat, (i + n = length (buffer st))%nat ->
    run cfg src (S n) (Flushing i k, st) =
      (EvEmit <$> drop i (buffer st), flush_end k st).
Proof.
  induction n as [|n IH]; intros i Hi.
  - rewrite drop_ge by lia. simpl.
    rewrite (proj2 (lookup_ge_None (buffer st) i)) by lia.
    by destruct k.
  - destruct (lookup_lt_is_Some_2 (buffer st) i) as [y Hy]; [lia|].
    rewrite (drop_S _ _ _ Hy).
    change (run cfg src (S (S n)) (Flushing i k, st))
      with (match step cfg src (Flushing i k, st) with
            | None => ([], (Flushing i k, st))
            | Some (evs, m') =>
                let (tr, m'') := run cfg src (S n) m' in (evs ++ tr, m'')
            end).
    simpl step. rewrite Hy, IH by lia. done.
Qed.
End Runs.

(** ** The limit gate *)

Lemma gated_emits {A : Type} (tr : list (event A)) :
  forallb is_emit tr = true -> gated false tr = true.
Proof.
  induction tr as [|ev tr IH]; [done|]. simpl.
  destruct ev; simpl; done.
Qed.

Lemma gated_pull {A : Type} (tr : list (event A)) :
  forall expect a o b,
    gated expect tr = true -> tr = a ++ EvPull o :: b ->
    (a = [] /\ expect = true) \/ exists a', a = a' ++ [EvGate true].
Proof.
  induction tr as [|ev tr IH]; intros expect a o b Hg Heq.
  - by destruct a.
  - destruct a as [|ev' a]; simpl in Heq; injection Heq as -> ->.
    + simpl in Hg. apply andb_true_iff in Hg as [-> _]. by left.
    + right. simpl in Hg. destruct ev' as [[]|o'|y|y];
        apply andb_true_iff in Hg as [_ Hg].
      * destruct (IH _ _ _ _ Hg eq_refl) as [[-> _]|[a' ->]].
        -- by exists [].
        -- by exists (EvGate true :: a').
      * exfalso. rewrite forallb_app in Hg. simpl in Hg.
        by rewrite andb_false_r in Hg.
      * destruct (IH _ _ _ _ Hg eq_refl) as [[_ ?]|[a' ->]]; [done|].
        by exists (EvPull o' :: a').
      * destruct (IH _ _ _ _ Hg eq_refl) as [[_ ?]|[a' ->]]; [done|].
        by exists (EvKeep y :: a').
      * destruct (IH _ _ _ _ Hg eq_refl) as [[_ ?]|[a' ->]]; [done|].
        by exists (EvEmit y :: a').
Qed.

Lemma gated_closed {A : Type} (tr : list (event A)) :
  forall expect a b,
    gated expect tr = true -> tr = a ++ EvGate false :: b ->
    forallb is_emit b = true.
Proof.
  induction tr as [|ev tr IH]; intros expect a b Hg Heq.
  - by destruct a.
  - destruct a as [|ev' a]; simpl in Heq; injection Heq as -> ->.
    + simpl in Hg. by apply andb_true_iff in Hg as [_ Hg].
    + simpl in Hg. destruct ev' as [[]|o'|y|y];
        apply andb_true_iff in Hg as [_ Hg]; try by eapply IH.
      rewrite forallb_app in Hg. simpl in Hg.
      by rewrite andb_false_r in Hg.
Qed.

Section Gate.
Context {R : RandomLib} {A : Type}.
Variable cfg : Config A.
Variable src : Source A.

#[local] Abbreviation machine := (pc (gen src) * RunState A)%type.

Lemma draining_steps m tr m' :
  steps cfg src m tr m' -> draining src m -> forallb is_emit tr = true.
Proof.
  induction 1 as [|[p st] evs m1 tr m2 Hstep _ IH]; intros Hd; [done|].
  rewrite forallb_app. destruct Hd as [Hp|[i Hp]]; simpl in Hp; subst p.
  - done.
  - simpl in Hstep. destruct (buffer st !! i) as [y|];
      injection Hstep as <- <-; simpl; apply IH; [right|left]; eauto.
Qed.

Lemma after_loop_draining st : draining src (after_loop cfg src st).
Proof.
  unfold after_loop, draining. repeat case_match; simpl; eauto.
Qed.

Lemma steps_gated m tr m' :
  steps cfg src m tr m' -> gated false tr = true.
Proof.
  induction 1 as [|[p st] evs m1 tr m2 Hstep Hs IH]; [done|].
  destruct p as [|g|g|i k| |e]; simpl in Hstep; try done.
  - by injection Hstep as <- <-.
  - unfold generator_with_buffer, generator_with_conditions in Hstep.
    destruct (limit_allows_one_more cfg st); simpl in Hstep.
    + destruct (next src g) as [x g'| |e].
      * destruct (counter st <? offset cfg); simpl in Hstep.
        -- by injection Hstep as <- <-.
        -- repeat case_match; injection Hstep as <- <-; done.
      * injection Hstep as <- <-. simpl. apply gated_emits.
        eapply draining_steps; [done|]. apply after_loop_draining.
      * by injection Hstep as <- <-.
    + injection Hstep as <- <-. simpl.
      eapply draining_steps; [done|]. apply after_loop_draining.
  - by injection Hstep as <- <-.
  - repeat case_match; injection Hstep as <- <-; done.
Qed.

(** Lines 151-152 and 164-165: with the gate closed the inner generator
    returns without calling [next], and the outer one goes on to lines
    186-195. *)
Lemma gate_closed_step g st :
  limit_allows_one_more cfg st = false ->
  generator_with_conditions cfg src g st = ([EvGate false], GwcReturn src) /\
  step cfg src (Pulling g, st) = Some ([EvGate false], after_loop cfg src st).
Proof.
  intros Hgate. simpl. unfold generator_with_buffer, generator_with_conditions.
  by rewrite Hgate.
Qed.

(** Lines 151-154: with the gate open [next] is called, once, on the
    source as it stands. *)
Lemma gate_open_step g st :
  limit_allows_one_more cfg st = true ->
  exists rest m',
    step cfg src (Pulling g, st) =
      Some (EvGate true :: EvPull (outcome_of (next src g)) :: rest, m') /\
    forall ev, ev ∈ rest -> exists y, ev = EvKeep y \/ ev = EvEmit y.
Proof.
  intros Hgate. simpl. unfold generator_with_buffer, generator_with_conditions.
  rewrite Hgate. simpl.
  destruct (next src g) as [x g'| |e]; simpl;
    repeat case_match; simplify_eq/=; eexists _, _; (split; [done|]);
    intros ev Hev; apply list_elem_of_In in Hev; simpl in Hev;
    intuition (subst; eauto).
Qed.

(** A gate evaluation is the first event of a transition from the head of
    the loop, and it records the value of the property in the run state of
    that moment; a closed gate is the whole of the transition. *)
Lemma step_gate_event m evs m1 a v k :
  step cfg src m = Some (evs, m1) -> evs = a ++ EvGate v :: k ->
  a = [] /\
  exists g st, m = (Pulling g, st) /\ limit_allows_one_more cfg st = v /\
    (v = false -> k = [] /\ m1 = after_loop cfg src st).
Proof.
  destruct m as [p st]. intros Hstep Hevs.
  destruct p as [|g|g|i j| |e]; simpl in Hstep; try done.
  - injection Hstep as <- <-. by destruct a.
  - unfold generator_with_buffer, generator_with_conditions in Hstep.
    destruct (limit_allows_one_more cfg st) eqn:Hgate; simpl in Hstep.
    + destruct (next src g) as [x g'| |e]; repeat case_match;
        simplify_eq/=;
        destruct a as [|? [|? [|? [|? [|? a]]]]]; simplify_eq/=;
        (split; [done|]); eexists _, _; split_and!; done.
    + injection Hstep as <- <-.
      destruct a as [|? [|? a]]; simplify_eq/=.
      split; [done|]. eexists _, _; split_and!; done.
  - injection Hstep as <- <-. by destruct a.
  - repeat case_match; simplify_eq/=;
      destruct a as [|? [|? a]]; simplify_eq/=.
Qed.

(** A pull is the second event of such a transition, right after a gate
    that gave [True] in the run state of that moment, and it is the answer
    of [next] on the source as it stands. *)
Lemma step_pull_event m evs m1 a o k :
  step cfg src m = Some (evs, m1) -> evs = a ++ EvPull o :: k ->
  a = [EvGate true] /\
  exists g st, m = (Pulling g, st) /\ limit_allows_one_more cfg st = true /\
    o = outcome_of (next src g).
Proof.
  destruct m as [p st]. intros Hstep Hevs.
  destruct p as [|g|g|i j| |e]; simpl in Hstep; try done.
  - injection Hstep as <- <-. by destruct a.
  - unfold generator_with_buffer, generator_with_conditions in Hstep.
    destruct (limit_allows_one_more cfg st) eqn:Hgate; simpl in Hstep.
    + destruct (next src g) as [x g'| |e] eqn:Hnext; repeat case_match;
        simplify_eq/=;
        destruct a as [|? [|? [|? [|? [|? a]]]]]; simplify_eq/=;
        (split; [done|]); eexists _, _; rewrite Hnext; split_and!; done.
    + injection Hstep as <- <-.
      destruct a as [|? [|? a]]; simplify_eq/=.
  - injection Hstep as <- <-. by destruct a.
  - repeat case_match; simplify_eq/=;
      destruct a as [|? [|? a]]; simplify_eq/=.
Qed.

(** An event of a run is an event of one of its transitions. *)
Lemma steps_event m tr m' :
  steps cfg src m tr m' ->
  forall a ev b, tr = a ++ ev :: b ->
    exists a0 m0 evs m1 a1 k b',
      steps cfg src m a0 m0 /\ step cfg src m0 = Some (evs, m1) /\
      steps cfg src m1 b' m' /\
      a = a0 ++ a1 /\ evs = a1 ++ ev :: k /\ b = k ++ b'.
Proof.
  induction 1 as [|m evs m1 tr m2 Hstep Hs IH]; intros a ev b Heq.
  - by destruct a.
  - apply app_eq_inv in Heq as [(k & Ha & Hb)|(k & Ha & Hb)].
    + destruct k as [|ev' k]; simpl in Hb.
      * rewrite app_nil_r in Ha. subst evs.
        destruct (IH [] ev b (eq_sym Hb))
          as (a0 & m0 & evs0 & m1' & a1 & k & b' & H0 & H1 & H2 & H3 & H4 & H5).
        exists (a ++ a0), m0, evs0, m1', a1, k, b'. split_and!; try done.
        -- by econstructor.
        -- by rewrite <- app_assoc, <- H3, app_nil_r.
      * injection Hb as <- ->.
        exists [], m, evs, m1, a, k, tr. split_and!; try done. constructor.
    + destruct (IH k ev b Hb)
        as (a0 & m0 & evs0 & m1' & a1 & k' & b' & H0 & H1 & H2 & H3 & H4 & H5).
      exists (evs ++ a0), m0, evs0, m1', a1, k', b'. split_and!; try done.
      * by econstructor.
      * by rewrite Ha, H3, app_assoc.
Qed.

(** Every gate evaluation in a run is made at the head of the loop and
    gives the value of the property there; when that is [False], the rest of
    the run is a run of lines 186-195. *)
Lemma steps_gate_state m tr m' a v b :
  steps cfg src m tr m' -> tr = a ++ EvGate v :: b ->
  exists g st,
    steps cfg src m a (Pulling g, st) /\ limit_allows_one_more cfg st = v /\
    (v = false -> steps cfg src (after_loop cfg src st) b m').
Proof.
  intros Hs Heq.
  destruct (steps_event _ _ _ Hs _ _ _ Heq)
    as (a0 & m0 & evs & m1 & a1 & k & b' & H0 & H1 & H2 & -> & H4 & ->).
  destruct (step_gate_event _ _ _ _ _ _ H1 H4) as (-> & g & st & -> & Hv & Hk).
  exists g, st. rewrite app_nil_r. split_and!; try done.
  intros Hf. by destruct (Hk Hf) as [-> <-].
Qed.

(** Every pull in a run comes right after a gate evaluation, made in the
    same run state and on the same source, that gave [True]. *)
Lemma steps_pull_state m tr m' a o b :
  steps cfg src m tr m' -> tr = a ++ EvPull o :: b ->
  exists a' g st,
    a = a' ++ [EvGate true] /\ steps cfg src m a' (Pulling g, st) /\
    limit_allows_one_more cfg st = true /\ o = outcome_of (next src g).
Proof.
  intros Hs Heq.
  destruct (steps_event _ _ _ Hs _ _ _ Heq)
    as (a0 & m0 & evs & m1 & a1 & k & b' & H0 & H1 & H2 & -> & H4 & ->).
  destruct (step_pull_event _ _ _ _ _ _ H1 H4) as (-> & g & st & -> & Hv & Ho).
  by exists a0, g, st.
Qed.

(** Lines 186-195 as a run: what the buffer still holds is emitted,
    shuffled, and the generator returns with the run state reset. *)
Lemma after_loop_run st :
  run cfg src (S (length (pending src (after_loop cfg src st))))
    (after_loop cfg src st) =
  (EvEmit <$> pending src (after_loop cfg src st), (Returned, fresh)).
Proof.
  unfold after_loop. repeat case_match; try done.
  unfold pending. cbn [fst snd]. rewrite drop_0.
  by rewrite (flush_emits cfg src None _ _ 0), drop_0.
Qed.

(** The transitions are deterministic: a run is the beginning of the run
    to the end. *)
Lemma steps_prefix m tr m' :
  steps cfg src m tr m' ->
  forall fuel full mf,
    run cfg src fuel m = (full, mf) -> step cfg src mf = None ->
    tr `prefix_of` full.
Proof.
  induction 1 as [|m evs m1 tr m2 Hstep _ IH]; intros fuel full mf Hrun Hhalt.
  - apply prefix_nil.
  - destruct fuel as [|fuel]; simpl in Hrun.
    + injection Hrun as <- <-. congruence.
    + rewrite Hstep in Hrun.
      destruct (run cfg src fuel m1) as [tr1 m3] eqn:Hrest.
      injection Hrun as <- <-. apply prefix_app. by eapply IH.
Qed.
End Gate.

(** C4.  [limit_allows_one_more] is true whenever [limit < 0], and for
    [limit >= 0] it is true exactly when [counter < limit + offset].  In the
    trace of every run, from any machine state and with any fuel, each pull
    from the source comes right after an evaluation of the gate that gave
    [True], and once the gate has given [False] nothing is pulled and the
    gate is not evaluated again: all that follows is the emission of what the
    buffer still holds.

    The gate decides, in the run state of the moment.  At the head of the
    loop, in any run state where the property is false, the inner generator
    returns without calling [next], the transition is the one event
    [EvGate false] into lines 186-195, and from there the traversal emits
    what the buffer holds and returns, the run state reset.  In any run state
    where the property is true, the transition evaluates the gate and then
    calls [next] on the source as it stands, once.  And in every run, every
    gate event is the value of the property in the run state the run has
    reached at the head of the loop; every pull is made in a run state where
    the property is true, with no transition between the evaluation and the
    call; and what follows a gate that gave [False] is a run of lines
    186-195, so a beginning of that final emission. *)
Theorem gate_before_every_pull {R : RandomLib} {A : Type}
    (cfg : Config A) (src : Source A) :
  (forall st, limit cfg < 0 -> limit_allows_one_more cfg st = true) /\
  (forall st, 0 <= limit cfg ->
     (limit_allows_one_more cfg st = true <->
      counter st < limit cfg + offset cfg)) /\
  (forall fuel m tr m', run cfg src fuel m = (tr, m') ->
     (forall a o b, tr = a ++ EvPull o :: b ->
        exists a', a = a' ++ [EvGate true]) /\
     (forall a b, tr = a ++ EvGate false :: b ->
        forall ev, ev ∈ b -> exists y, ev = EvEmit y)) /\
  (forall g st, limit_allows_one_more cfg st = false ->
     generator_with_conditions cfg src g st = ([EvGate false], GwcReturn src) /\
     step cfg src (Pulling g, st) =
       Some ([EvGate false], after_loop cfg src st) /\
     run cfg src (S (length (pending src (after_loop cfg src st))))
       (after_loop cfg src st) =
     (EvEmit <$> pending src (after_loop cfg src st), (Returned, fresh))) /\
  (forall g st, limit_allows_one_more cfg st = true ->
     exists rest m',
       step cfg src (Pulling g, st) =
         Some (EvGate true :: EvPull (outcome_of (next src g)) :: rest, m') /\
       forall ev, ev ∈ rest -> exists y, ev = EvKeep y \/ ev = EvEmit y) /\
  (forall fuel m tr m', run cfg src fuel m = (tr, m') ->
     (forall a v b, tr = a ++ EvGate v :: b ->
        exists g st,
          steps cfg src m a (Pulling g, st) /\
          limit_allows_one_more cfg st = v) /\
     (forall a o b, tr = a ++ EvPull o :: b ->
        exists a' g st,
          a = a' ++ [EvGate true] /\
          steps cfg src m a' (Pulling g, st) /\
          limit_allows_one_more cfg st = true /\
          o = outcome_of (next src g)) /\
     (forall a b, tr = a ++ EvGate false :: b ->
        exists g st,
          steps cfg src m a (Pulling g, st) /\
          limit_allows_one_more cfg st = false /\
          steps cfg src (after_loop cfg src st) b m' /\
          b `prefix_of` (EvEmit <$> pending src (after_loop cfg src st)))).
Proof.
  split_and!.
  - intros st Hlim. unfold limit_allows_one_more.
    by destruct (Z.ltb_spec (limit cfg) 0); [|lia].
  - intros st Hlim. unfold limit_allows_one_more.
    destruct (Z.ltb_spec (limit cfg) 0); [lia|]. apply Z.ltb_lt.
  - intros fuel m tr m' Hrun.
    pose proof (steps_gated _ _ _ _ _ (run_steps _ _ _ _ _ _ Hrun)) as Hg.
    split.
    + intros a o b ->.
      destruct (gated_pull _ _ _ _ _ Hg eq_refl) as [[_ ?]|?]; done.
    + intros a b -> ev Hev.
      pose proof (gated_closed _ _ _ _ Hg eq_refl) as Hb.
      rewrite forallb_forall in Hb. apply list_elem_of_In, Hb in Hev.
      destruct ev; try done. by eexists.
  - intros g st Hgate.
    destruct (gate_closed_step cfg src g st Hgate) as [Hinner Hstep].
    split_and!; [done..|]. apply after_loop_run.
  - intros g st Hgate. by apply gate_open_step.
  - intros fuel m tr m' Hrun. apply run_steps in Hrun. split_and!.
    + intros a v b Heq.
      destruct (steps_gate_state cfg src _ _ _ _ _ _ Hrun Heq)
        as (g & st & Ha & Hv & _).
      by exists g, st.
    + intros a o b Heq. by eapply steps_pull_state.
    + intros a b Heq.
      destruct (steps_gate_state cfg src _ _ _ _ _ _ Hrun Heq)
        as (g & st & Ha & Hv & Hrest).
      specialize (Hrest eq_refl).
      exists g, st. split_and!; try done.
      by eapply steps_prefix; [done|apply after_loop_run|].
Qed.

Lemma gate_before_every_pull_witness :
  (limit (Tests.dataset 1 0 1 (-1)) < 0 /\
   limit_allows_one_more (Tests.dataset 1 0 1 (-1)) (MkState 7 []) = true) /\
  (0 <= limit (Tests.dataset 1 0 0 2) /\
   (limit_allows_one_more (Tests.dataset 1 0 0 2) (MkState 1 []) = true <->
    1 < 2 + 0)) /\
  (exists a', [EvGate true; EvPull (GotItem 0); EvKeep 0; EvEmit 0; EvGate true]
             = a' ++ [EvGate true]) /\
  (run (R := Mersenne.lib) (Tests.dataset 3 42 0 5) Tests.IntegersDataset 20
     (iter Tests.IntegersDataset fresh) =
     ([EvGate true; EvPull (GotItem 0); EvKeep 0;
       EvGate true; EvPull (GotItem 1); EvKeep 1;
       EvGate true; EvPull (GotItem 2); EvKeep 2;
       EvEmit 1; EvEmit 0; EvEmit 2;
       EvGate true; EvPull (GotItem 3); EvKeep 3;
       EvGate true; EvPull (GotItem 4); EvKeep 4;
       EvGate false; EvEmit 4; EvEmit 3], (Returned, fresh)) /\
   exists y : Z, EvEmit 3 = EvEmit y) /\
  (limit_allows_one_more (Tests.dataset 3 42 0 5) (MkState 5 [3; 4]) = false /\
   generator_with_conditions (Tests.dataset 3 42 0 5) Tests.IntegersDataset
     5 (MkState 5 [3; 4]) = ([EvGate false], GwcReturn Tests.IntegersDataset) /\
   step (R := Mersenne.lib) (Tests.dataset 3 42 0 5) Tests.IntegersDataset
     (Pulling 5, MkState 5 [3; 4]) =
     Some ([EvGate false], (Flushing 0 None, MkState 5 [4; 3])) /\
   run (R := Mersenne.lib) (Tests.dataset 3 42 0 5) Tests.IntegersDataset 3
     (Flushing 0 None, MkState 5 [4; 3]) =
     ([EvEmit 4; EvEmit 3], (Returned, fresh))) /\
  (limit_allows_one_more (Tests.dataset 1 0 0 2) (MkState 1 []) = true /\
   exists rest m',
     step (R := Mersenne.lib) (Tests.dataset 1 0 0 2) Tests.IntegersDataset
       (Pulling 1, MkState 1 []) =
       Some (EvGate true :: EvPull (GotItem 1) :: rest, m') /\
     forall ev, ev ∈ rest -> exists y, ev = EvKeep y \/ ev = EvEmit y) /\
  (exists g st,
     steps (R := Mersenne.lib) (Tests.dataset 3 42 0 5) Tests.IntegersDataset
       (iter Tests.IntegersDataset fresh)
       [EvGate true; EvPull (GotItem 0); EvKeep 0;
        EvGate true; EvPull (GotItem 1); EvKeep 1;
        EvGate true; EvPull (GotItem 2); EvKeep 2;
        EvEmit 1; EvEmit 0; EvEmit 2]
       (Pulling g, st) /\
     limit_allows_one_more (Tests.dataset 3 42 0 5) st = true) /\
  (exists a' g st,
     [EvGate true; EvPull (GotItem 0); EvKeep 0;
      EvGate true; EvPull (GotItem 1); EvKeep 1;
      EvGate true; EvPull (GotItem 2); EvKeep 2;
      EvEmit 1; EvEmit 0; EvEmit 2;
      EvGate true; EvPull (GotItem 3); EvKeep 3;
      EvGate true] = a' ++ [EvGate true] /\
     steps (R := Mersenne.lib) (Tests.dataset 3 42 0 5) Tests.IntegersDataset
       (iter Tests.IntegersDataset fresh) a' (Pulling g, st) /\
     limit_allows_one_more (Tests.dataset 3 42 0 5) st = true /\
     GotItem 4 = outcome_of (next Tests.IntegersDataset g)) /\
  (exists g st,
     steps (R := Mersenne.lib) (Tests.dataset 3 42 0 5) Tests.IntegersDataset
       (iter Tests.IntegersDataset fresh)
       [EvGate true; EvPull (GotItem 0); EvKeep 0;
        EvGate true; EvPull (GotItem 1); EvKeep 1;
        EvGate true; EvPull (GotItem 2); EvKeep 2;
        EvEmit 1; EvEmit 0; EvEmit 2;
        EvGate true; EvPull (GotItem 3); EvKeep 3;
        EvGate true; EvPull (GotItem 4); EvKeep 4]
       (Pulling g, st) /\
     limit_allows_one_more (Tests.dataset 3 42 0 5) st = false /\
     steps (R := Mersenne.lib) (Tests.dataset 3 42 0 5) Tests.IntegersDataset
       (after_loop (R := Mersenne.lib) (Tests.dataset 3 42 0 5)
          Tests.IntegersDataset st)
       [EvEmit 4; EvEmit 3] (Returned, fresh) /\
     [EvEmit 4; EvEmit 3] `prefix_of`
       (EvEmit <$> pending Tests.IntegersDataset
          (after_loop (R := Mersenne.lib) (Tests.dataset 3 42 0 5)
             Tests.IntegersDataset st))).
Proof.
  pose proof (gate_before_every_pull (R := Mersenne.lib)
                (Tests.dataset 1 0 1 (-1)) Tests.IntegersDataset) as [H1 _].
  pose proof (gate_before_every_pull (R := Mersenne.lib)
                (Tests.dataset 1 0 0 2) Tests.IntegersDataset)
    as (_ & H2 & H3 & _ & H5 & _).
  pose proof (gate_before_every_pull (R := Mersenne.lib)
                (Tests.dataset 3 42 0 5) Tests.IntegersDataset)
    as (_ & _ & K3 & K4 & _ & K6).
  assert (run (R := Mersenne.lib) (Tests.dataset 3 42 0 5)
            Tests.IntegersDataset 20 (iter Tests.IntegersDataset fresh) =
          ([EvGate true; EvPull (GotItem 0); EvKeep 0;
            EvGate true; EvPull (GotItem 1); EvKeep 1;
            EvGate true; EvPull (GotItem 2); EvKeep 2;
            EvEmit 1; EvEmit 0; EvEmit 2;
            EvGate true; EvPull (GotItem 3); EvKeep 3;
            EvGate true; EvPull (GotItem 4); EvKeep 4;
            EvGate false; EvEmit 4; EvEmit 3], (Returned, fresh))) as Hrun
    by (vm_compute; reflexivity).
  split; [split; [reflexivity|apply H1; reflexivity]|].
  split; [split; [discriminate|apply (H2 (MkState 1 [])); discriminate]|].
  split.
  { apply (proj1 (H3 4%nat (iter _ fresh)
                    [EvGate true; EvPull (GotItem 0); EvKeep 0; EvEmit 0;
                     EvGate true; EvPull (GotItem 1); EvKeep 1; EvEmit 1]
                    (Yielded 2, MkState 1 []) eq_refl)
             [EvGate true; EvPull (GotItem 0); EvKeep 0; EvEmit 0; EvGate true]
             (GotItem 1) [EvKeep 1; EvEmit 1]).
    reflexivity. }
  split.
  { split; [exact Hrun|].
    apply (proj2 (K3 _ _ _ _ Hrun)
             [EvGate true; EvPull (GotItem 0); EvKeep 0;
              EvGate true; EvPull (GotItem 1); EvKeep 1;
              EvGate true; EvPull (GotItem 2); EvKeep 2;
              EvEmit 1; EvEmit 0; EvEmit 2;
              EvGate true; EvPull (GotItem 3); EvKeep 3;
              EvGate true; EvPull (GotItem 4); EvKeep 4]
             [EvEmit 4; EvEmit 3] eq_refl (EvEmit 3)).
    apply list_elem_of_In. simpl. auto. }
  split.
  { split; [reflexivity|].
    pose proof (K4 5 (MkState 5 [3; 4]) eq_refl) as Hclosed.
    vm_compute in Hclosed. vm_compute. exact Hclosed. }
  split.
  { split; [reflexivity|]. apply (H5 1 (MkState 1 [])). reflexivity. }
  split.
  { apply (proj1 (K6 _ _ _ _ Hrun)
             [EvGate true; EvPull (GotItem 0); EvKeep 0;
              EvGate true; EvPull (GotItem 1); EvKeep 1;
              EvGate true; EvPull (GotItem 2); EvKeep 2;
              EvEmit 1; EvEmit 0; EvEmit 2]
             true
             [EvPull (GotItem 3); EvKeep 3;
              EvGate true; EvPull (GotItem 4); EvKeep 4;
              EvGate false; EvEmit 4; EvEmit 3]).
    reflexivity. }
  split.
  { apply (proj1 (proj2 (K6 _ _ _ _ Hrun))
             [EvGate true; EvPull (GotItem 0); EvKeep 0;
              EvGate true; EvPull (GotItem 1); EvKeep 1;
              EvGate true; EvPull (GotItem 2); EvKeep 2;
              EvEmit 1; EvEmit 0; EvEmit 2;
              EvGate true; EvPull (GotItem 3); EvKeep 3;
              EvGate true]
             (GotItem 4)
             [EvKeep 4; EvGate false; EvEmit 4; EvEmit 3]).
    reflexivity. }
  apply (proj2 (proj2 (K6 _ _ _ _ Hrun))
           [EvGate true; EvPull (GotItem 0); EvKeep 0;
            EvGate true; EvPull (GotItem 1); EvKeep 1;
            EvGate true; EvPull (GotItem 2); EvKeep 2;
            EvEmit 1; EvEmit 0; EvEmit 2;
            EvGate true; EvPull (GotItem 3); EvKeep 3;
            EvGate true; EvPull (GotItem 4); EvKeep 4]
           [EvEmit 4; EvEmit 3]).
  reflexivity.
Defined.

(** ** Construction *)

(** A test's constructor call gives the configuration [Tests.dataset]
    names, and the initial run state. *)
Lemma dataset_init (shuffle_buffer offset limit : Z) (seed : option Z)
    (entropy : Z) :
  init shuffle_buffer seed offset limit None false entropy =
  inr (Tests.dataset shuffle_buffer
         (match seed with Some s => s | None => entropy end) offset limit,
       fresh).
Proof. reflexivity. Qed.

(** C8.  [__init__] with [transforms_required] true and no transforms, absent
    or empty, raises (the [ValueError] of line 52, the configuration error of
    the specification) and builds no object; with [transforms_required] false
    it never raises, whatever the transforms. *)
Theorem configuration_guard {A : Type}
    (shuffle_buffer : Z) (shuffle_seed : option Z) (offset limit : Z)
    (entropy : Z) :
  (exists msg,
     init (A := A) shuffle_buffer shuffle_seed offset limit None true entropy
       = inl (ValueError msg) /\
     init (A := A) shuffle_buffer shuffle_seed offset limit (Some []) true entropy
       = inl (ValueError msg)) /\
  (forall transforms : option (list (A -> A)), exists cfg,
     init shuffle_buffer shuffle_seed offset limit transforms false entropy
       = inr (cfg, fresh)).
Proof.
  split.
  - eexists. split; reflexivity.
  - intros transforms. eexists. reflexivity.
Qed.

(** ** Restart *)

(** C1.  A traversal that runs to exhaustion, from whatever run state, ends
    in the state [__init__] leaves.  So after a complete traversal of a
    pipeline in that state, the next traversal of the same pipeline over the
    same source has the same output and ends there again.  With [limit=3]
    over the naturals both traversals give [[0; 1; 2]]. *)
Theorem idempotent_restart {R : RandomLib} :
  (forall (A : Type) (cfg : Config A) (src : Source A) fuel out st0 st',
     list_of cfg src fuel st0 = (Listed out, st') -> st' = fresh) /\
  (forall (A : Type) (cfg : Config A) (src : Source A) fuel out st',
     list_of cfg src fuel fresh = (Listed out, st') ->
     list_of cfg src fuel st' = (Listed out, st')) /\
  (forall seed, exists fuel st',
     list_of (Tests.dataset 1 seed 0 3) Tests.IntegersDataset fuel fresh
       = (Listed [0; 1; 2], st') /\
     list_of (Tests.dataset 1 seed 0 3) Tests.IntegersDataset fuel st'
       = (Listed [0; 1; 2], st')).
Proof.
  assert (forall (A : Type) (cfg : Config A) (src : Source A) fuel out st0 st',
            list_of cfg src fuel st0 = (Listed out, st') -> st' = fresh)
    as Hreset.
  { intros A cfg src fuel out st0 st' H. unfold list_of in H.
    destruct (run cfg src fuel (iter src st0)) as [tr [p st]] eqn:Hrun.
    simpl in H. destruct p; simplify_eq.
    apply run_steps in Hrun. by eapply steps_returned. }
  split; [exact Hreset|]. split.
  - intros A cfg src fuel out st' H.
    pose proof (Hreset _ _ _ _ _ _ _ H) as ->. exact H.
  - intros seed. exists 10%nat, fresh. split; reflexivity.
Qed.

Lemma idempotent_restart_witness :
  MkState 0 [] = fresh (A := Z) /\
  list_of (R := Mersenne.lib) (Tests.dataset 3 42 0 5) Tests.IntegersDataset
    20 fresh = (Listed [1; 0; 2; 4; 3], fresh).
Proof.
  pose proof (idempotent_restart (R := Mersenne.lib)) as (H1 & H2 & _).
  split.
  - apply (H1 Z (Tests.dataset 3 42 0 3) (Tests.FailingDataset 2) 10%nat
              [1; 0; 0] (MkState 2 [0; 1])).
    vm_compute; reflexivity.
  - apply H2. vm_compute; reflexivity.
Defined.

(** ** Offset *)

Section Offset.
Context {R : RandomLib} {A : Type}.
Variable cfg : Config A.
Variable src : Source A.

(** Below the offset the gate is open, whatever the limit. *)
Lemma gate_open_below_offset (st : RunState A) :
  counter st < offset cfg -> limit_allows_one_more cfg st = true.
Proof.
  intros H. unfold limit_allows_one_more.
  destruct (Z.ltb_spec (limit cfg) 0); [done|]. apply Z.ltb_lt. lia.
Qed.

Lemma step_counter_mono m evs m' :
  step cfg src m = Some (evs, m') -> fst m' <> Returned ->
  counter (snd m) <= counter (snd m') <= counter (snd m) + 1.
Proof.
  destruct m as [p st]. unfold step, generator_with_buffer, after_loop,
    generator_with_conditions.
  intros Hstep Hne.
  repeat (case_match; simplify_eq; simpl in *; try lia; try done).
Qed.

Lemma steps_counter_mono m tr m' :
  steps cfg src m tr m' -> fst m' <> Returned ->
  counter (snd m) <= counter (snd m').
Proof.
  induction 1 as [|m evs m1 tr m2 Hstep Hs IH]; intros Hne; [lia|].
  assert (fst m1 <> Returned) as Hne1.
  { intros Heq. destruct m1 as [p1 st1]. simpl in Heq. subst p1.
    apply steps_halted in Hs as [_ ->]; done. }
  pose proof (step_counter_mono _ _ _ Hstep Hne1). specialize (IH Hne). lia.
Qed.
End Offset.

(** C5.  While [counter < offset] an item pulled from the source is dropped:
    the transition pulls it behind an open gate, applies no transform, yields
    nothing, leaves the buffer as it is and adds one to [counter].  The one
    counter serves the offset test and the limit gate, and within a run it
    never decreases (it goes back to 0 only when the run returns).  With
    [offset=5] and [limit=2] over the naturals a traversal gives [[5; 6]],
    the first time and the second. *)
Theorem offset_skips_and_counts {R : RandomLib} :
  (forall (A : Type) (cfg : Config A) (src : Source A) g st x g',
     counter st < offset cfg -> next src g = Item x g' ->
     step cfg src (Pulling g, st) =
       Some ([EvGate true; EvPull (GotItem x)],
             (Pulling g', MkState (counter st + 1) (buffer st)))) /\
  (forall (A : Type) (cfg : Config A) (src : Source A) fuel m tr m',
     run cfg src fuel m = (tr, m') -> fst m' <> Returned ->
     counter (snd m) <= counter (snd m')) /\
  (forall seed, exists fuel st',
     list_of (Tests.dataset 1 seed 5 2) Tests.IntegersDataset fuel fresh
       = (Listed [5; 6], st') /\
     list_of (Tests.dataset 1 seed 5 2) Tests.IntegersDataset fuel st'
       = (Listed [5; 6], st')).
Proof.
  split; [|split].
  - intros A cfg src g st x g' Hlt Hnext. simpl.
    unfold generator_with_buffer, generator_with_conditions.
    rewrite gate_open_below_offset by done. simpl. rewrite Hnext.
    by destruct (Z.ltb_spec (counter st) (offset cfg)); [|lia].
  - intros A cfg src fuel m tr m' Hrun Hne.
    eapply steps_counter_mono; [by eapply run_steps|done].
  - intros seed. exists 20%nat, fresh. split; reflexivity.
Qed.

Lemma offset_skips_and_counts_witness :
  step (R := Mersenne.lib) (Tests.dataset 1 0 5 2) Tests.IntegersDataset
       (Pulling (3 : gen Tests.IntegersDataset), MkState 3 []) =
  Some ([EvGate true; EvPull (GotItem 3)], (Pulling 4, MkState 4 [])) /\
  counter (A := Z) fresh <= 2.
Proof.
  split.
  - apply (proj1 (offset_skips_and_counts (R := Mersenne.lib))); reflexivity.
  - apply (proj1 (proj2 (offset_skips_and_counts (R := Mersenne.lib)))
             Z (Tests.dataset 1 0 5 2) Tests.IntegersDataset 3%nat
             (iter _ fresh)
             [EvGate true; EvPull (GotItem 0); EvGate true; EvPull (GotItem 1)]
             (Pulling 2, MkState 2 []));
      [reflexivity | discriminate].
Defined.

(** ** The shuffle *)

Section ShuffleFacts.
Context {R : RandomLib}.

(** The indices [shuffle] exchanges are within the list, so [swap] never
    meets Python's [IndexError]. *)
Lemma swap_in_range {A : Type} (x : list A) (i : nat) (g : rng) :
  (i < length x)%nat ->
  is_Some (x !! i) /\ is_Some (x !! fst (randbelow g (S i))).
Proof.
  intros Hi. pose proof (randbelow_lt g (S i)).
  split; apply lookup_lt_is_Some; lia.
Qed.

Lemma swap_perm {A : Type} (x : list A) (i j : nat) : swap x i j ≡ₚ x.
Proof.
  unfold swap. destruct (x !! i) as [a|] eqn:Hi; [|done].
  destruct (x !! j) as [b|] eqn:Hj; [|done].
  by apply Permutation_insert_swap.
Qed.

Lemma shuffle_loop_perm {A : Type} (i : nat) :
  forall (g : rng) (x : list A), shuffle_loop i g x ≡ₚ x.
Proof.
  induction i as [|i IH]; intros g x; [done|]. simpl.
  destruct (randbelow g (S (S i))) as [j g']. by rewrite IH, swap_perm.
Qed.

Lemma shuffle_perm {A : Type} (g : rng) (x : list A) : shuffle g x ≡ₚ x.
Proof. apply shuffle_loop_perm. Qed.

Lemma shuffle_length {A : Type} (g : rng) (x : list A) :
  length (shuffle g x) = length x.
Proof. by rewrite shuffle_perm. Qed.

(** The shuffle looks at positions only: it commutes with any relabelling
    of the elements. *)
Lemma swap_fmap {A B : Type} (f : A -> B) (x : list A) (i j : nat) :
  f <$> swap x i j = swap (f <$> x) i j.
Proof.
  unfold swap. rewrite !list_lookup_fmap.
  destruct (x !! i) as [a|]; [|done]. destruct (x !! j) as [b|]; [|done].
  simpl. by rewrite !list_fmap_insert.
Qed.

Lemma shuffle_loop_fmap {A B : Type} (f : A -> B) (i : nat) :
  forall (g : rng) (x : list A),
    f <$> shuffle_loop i g x = shuffle_loop i g (f <$> x).
Proof.
  induction i as [|i IH]; intros g x; [done|]. simpl.
  destruct (randbelow g (S (S i))) as [j g']. by rewrite IH, swap_fmap.
Qed.

Lemma shuffle_fmap {A B : Type} (f : A -> B) (g : rng) (x : list A) :
  f <$> shuffle g x = shuffle g (f <$> x).
Proof. unfold shuffle. by rewrite shuffle_loop_fmap, length_fmap. Qed.

Lemma lookup_seq_fmap {A : Type} (x : list A) :
  (fun k => x !! k) <$> seq 0 (length x) = Some <$> x.
Proof.
  apply list_eq. intros i. rewrite !list_lookup_fmap.
  destruct (x !! i) as [a|] eqn:Hi.
  - rewrite lookup_seq_lt by (by eapply lookup_lt_Some). simpl. by rewrite Hi.
  - rewrite lookup_seq_ge by (by apply lookup_ge_None). done.
Qed.

Lemma shuffle_by_index {A : Type} (g : rng) (x : list A) :
  Some <$> shuffle g x =
  (fun k => x !! k) <$> index_permutation g (length x).
Proof.
  unfold index_permutation. by rewrite !shuffle_fmap, lookup_seq_fmap.
Qed.
End ShuffleFacts.

(** ** Flushing *)

Section Flush.
Context {R : RandomLib} {A : Type}.
Variable cfg : Config A.
Variable src : Source A.

#[local] Abbreviation machine := (pc (gen src) * RunState A)%type.

Lemma step_pending m evs m' :
  shuffle_buffer cfg > 1 -> step cfg src m = Some (evs, m') ->
  pending src m ++ kept evs ≡ₚ emitted evs ++ pending src m'.
Proof.
  intros Hsb Hstep. destruct m as [p st]. unfold pending.
  destruct p as [|g|g|i k| |e]; simpl in Hstep; simplify_eq/=.
  - by rewrite app_nil_r.
  - unfold generator_with_buffer, generator_with_conditions, after_loop in Hstep.
    repeat (case_match; simplify_eq/=); rewrite ?app_nil_r;
      rewrite ?shuffle_perm; try done; try lia.
    all: tests; destruct (buffer st); [done|simpl in *; lia].
  - by rewrite app_nil_r.
  - destruct (buffer st !! i) as [y|] eqn:Hy.
    + simplify_eq/=. by rewrite app_nil_r, (drop_S _ _ _ Hy).
    + apply lookup_ge_None in Hy. rewrite drop_ge by done.
      destruct k; simplify_eq/=; done.
Qed.

Lemma steps_pending m tr m' :
  shuffle_buffer cfg > 1 -> steps cfg src m tr m' ->
  pending src m ++ kept tr ≡ₚ emitted tr ++ pending src m'.
Proof.
  intros Hsb. induction 1 as [m|m evs m1 tr m2 Hstep _ IH].
  - by rewrite app_nil_r.
  - unfold kept, emitted in *. rewrite !omap_app.
    rewrite (assoc (++)), (step_pending _ _ _ Hsb Hstep).
    unfold kept, emitted. by rewrite <- !(assoc (++)), IH.
Qed.

Lemma step_bounded m evs m' :
  bounded cfg src m -> step cfg src m = Some (evs, m') -> bounded cfg src m'.
Proof.
  unfold bounded. destruct m as [p st]. intros Hb Hstep.
  destruct p as [|g|g|i k| |e]; simpl in Hstep; simplify_eq/=.
  - destruct Hb as [?|[?|[(? & ? & ?) _]]]; by eauto.
  - assert (buffer st = [] \/
            Z.of_nat (length (buffer st)) < shuffle_buffer cfg) as Hb'
      by (destruct Hb as [?|[?|[(? & ? & ?) _]]]; by eauto).
    clear Hb.
    unfold generator_with_buffer, generator_with_conditions, after_loop in Hstep.
    repeat (case_match; simplify_eq/=);
      rewrite ?shuffle_length, ?length_app in *; simpl in *; tests;
      (destruct Hb' as [Hb'|Hb']; [rewrite ?Hb' in *; simpl in *|]);
      first [ by left | right; left; lia
            | right; right; split; [by eauto|lia] ].
  - destruct Hb as [?|[?|[(? & ? & ?) _]]]; by eauto.
  - destruct (buffer st !! i) as [y|] eqn:Hy; [|destruct k]; simplify_eq/=; eauto.
    apply lookup_lt_Some in Hy.
    right. right. split; [eauto|].
    destruct Hb as [Hb|[Hb|[_ Hb]]]; [rewrite Hb in Hy; simpl in Hy|..]; lia.
Qed.

Lemma steps_bounded m tr m' :
  steps cfg src m tr m' -> bounded cfg src m -> bounded cfg src m'.
Proof.
  intros Hs. eapply steps_invariant; [|done]. intros. by eapply step_bounded.
Qed.
End Flush.

(** C6.  With [shuffle_buffer > 1], when the inner generator returns (the
    gate gave [False] or the source is exhausted) while the buffer holds
    items, that partial buffer goes through the shuffle of
    [Random(shuffle_seed)], the very one a full buffer goes through, and the
    run then emits every item of it and returns.  So the output of a complete
    run from the initial state is a permutation of the transformed items the
    inner generator yielded: each of them once, none lost. *)
Theorem partial_buffer_flushed {R : RandomLib} {A : Type}
    (cfg : Config A) (src : Source A) :
  shuffle_buffer cfg > 1 ->
  (forall g st evs,
     generator_with_conditions cfg src g st = (evs, GwcReturn src) ->
     buffer st <> [] ->
     step cfg src (Pulling g, st) =
       Some (evs, (Flushing 0 None, flush_buffer_shuffle cfg st)) /\
     run cfg src (S (length (buffer st)))
         (Flushing 0 None, flush_buffer_shuffle cfg st) =
       (EvEmit <$> shuffle (Random (shuffle_seed cfg)) (buffer st),
        (Returned, fresh))) /\
  (forall g st evs y g',
     generator_with_conditions cfg src g st = (evs, GwcYield src y g') ->
     Z.of_nat (length (buffer st ++ [y])) >= shuffle_buffer cfg ->
     step cfg src (Pulling g, st) =
       Some (evs, (Flushing 0 (Some g'),
                   flush_buffer_shuffle cfg (append y st)))) /\
  (forall fuel tr st',
     run cfg src fuel (iter src fresh) = (tr, (Returned, st')) ->
     emitted tr ≡ₚ kept tr).
Proof.
  intros Hsb. split; [|split].
  - intros g st evs Hgwc Hne. split.
    + simpl. unfold generator_with_buffer, after_loop. rewrite Hgwc.
      destruct (Z.gtb_spec (shuffle_buffer cfg) 1); [|lia].
      destruct (Z.gtb_spec (Z.of_nat (length (buffer st))) 0); [done|].
      destruct (buffer st); [done|simpl in *; lia].
    + rewrite (flush_emits cfg src None (flush_buffer_shuffle cfg st)
                 (length (buffer st)) 0); [done|].
      simpl. by rewrite shuffle_length.
  - intros g st evs y g' Hgwc Hfull. simpl.
    unfold generator_with_buffer. rewrite Hgwc.
    destruct (Z.gtb_spec (shuffle_buffer cfg) 1); [|lia].
    by destruct (Z.geb_spec (Z.of_nat (length (buffer (append y st))))
                  (shuffle_buffer cfg)); [|simpl in *; lia].
  - intros fuel tr st' Hrun.
    pose proof (steps_pending _ _ _ _ _ Hsb (run_steps _ _ _ _ _ _ Hrun)) as Hp.
    unfold pending in Hp. simpl in Hp. by rewrite app_nil_r in Hp.
Qed.

Lemma partial_buffer_flushed_witness :
  (step (R := Mersenne.lib) (Tests.dataset 3 42 0 5) Tests.IntegersDataset
        (Pulling (5 : gen Tests.IntegersDataset), MkState 5 [3; 4]) =
     Some ([EvGate false],
           (Flushing 0 None,
            flush_buffer_shuffle (R := Mersenne.lib) (Tests.dataset 3 42 0 5)
              (MkState 5 [3; 4]))) /\
   run (R := Mersenne.lib) (Tests.dataset 3 42 0 5) Tests.IntegersDataset 3
       (Flushing 0 None,
        flush_buffer_shuffle (R := Mersenne.lib) (Tests.dataset 3 42 0 5)
          (MkState 5 [3; 4])) =
     (EvEmit <$> shuffle (R := Mersenne.lib) (Random 42) [3; 4],
      (Returned, fresh))) /\
  step (R := Mersenne.lib) (Tests.dataset 3 42 0 5) Tests.IntegersDataset
       (Pulling (2 : gen Tests.IntegersDataset), MkState 2 [0; 1]) =
    Some ([EvGate true; EvPull (GotItem 2); EvKeep 2],
          (Flushing 0 (Some 3),
           flush_buffer_shuffle (R := Mersenne.lib) (Tests.dataset 3 42 0 5)
             (append 2 (MkState 2 [0; 1])))) /\
  emitted (fst (run (R := Mersenne.lib) (Tests.dataset 3 42 0 5)
                  Tests.IntegersDataset 20 (iter _ fresh))) ≡ₚ
  kept (fst (run (R := Mersenne.lib) (Tests.dataset 3 42 0 5)
               Tests.IntegersDataset 20 (iter _ fresh))).
Proof.
  pose proof (partial_buffer_flushed (R := Mersenne.lib)
                (Tests.dataset 3 42 0 5) Tests.IntegersDataset
                ltac:(reflexivity)) as (H1 & H2 & H3).
  split; [|split].
  - apply (H1 5 (MkState 5 [3; 4]) [EvGate false]); [reflexivity|discriminate].
  - apply (H2 2 (MkState 2 [0; 1])
              [EvGate true; EvPull (GotItem 2); EvKeep 2] 2 3);
      [reflexivity|discriminate].
  - apply (H3 20%nat _ fresh). vm_compute; reflexivity.
Defined.

(** C7.  Whenever the machine enters a flush, the buffer it is about to emit
    is the result of [shuffle] with a generator built right then by
    [Random(shuffle_seed)]: no generator state is carried from one flush to
    the next.  Two flushes of the same pipeline over buffers of one length
    therefore move the items by one and the same permutation of positions. *)
Theorem flush_reseeds_identically {R : RandomLib} {A : Type}
    (cfg : Config A) (src : Source A) :
  (forall m evs k st',
     step cfg src m = Some (evs, (Flushing 0 k, st')) ->
     exists b,
       buffer st' = shuffle (Random (shuffle_seed cfg)) b /\
       (b = buffer (snd m) \/ exists y, b = buffer (snd m) ++ [y])) /\
  (forall st1 st2 : RunState A,
     length (buffer st1) = length (buffer st2) ->
     exists sigma : list nat,
       sigma ≡ₚ seq 0 (length (buffer st1)) /\
       Some <$> buffer (flush_buffer_shuffle cfg st1) =
         (fun k => buffer st1 !! k) <$> sigma /\
       Some <$> buffer (flush_buffer_shuffle cfg st2) =
         (fun k => buffer st2 !! k) <$> sigma).
Proof.
  split.
  - intros [p st] evs k st' Hstep.
    destruct p as [|g|g|i k'| |e]; simpl in Hstep; simplify_eq/=.
    + unfold generator_with_buffer, generator_with_conditions, after_loop in Hstep.
      repeat (case_match; simplify_eq/=); eauto.
    + repeat (case_match; simplify_eq/=).
  - intros st1 st2 Hlen.
    exists (index_permutation (Random (shuffle_seed cfg)) (length (buffer st1))).
    split; [apply shuffle_perm|]. split; simpl.
    + apply shuffle_by_index.
    + rewrite Hlen. apply shuffle_by_index.
Qed.

Lemma flush_reseeds_identically_witness :
  (exists b,
     buffer (flush_buffer_shuffle (R := Mersenne.lib) (Tests.dataset 3 42 0 5)
               (MkState 2 [0; 1; 2])) = shuffle (R := Mersenne.lib) (Random 42) b /\
     (b = [0; 1] \/ exists y, b = [0; 1] ++ [y])) /\
  exists sigma : list nat,
    sigma ≡ₚ [0; 1; 2]%nat /\
    Some <$> buffer (flush_buffer_shuffle (R := Mersenne.lib)
                       (Tests.dataset 3 42 0 5) (MkState 2 [0; 1; 2])) =
      (fun k => [0; 1; 2] !! k) <$> sigma /\
    Some <$> buffer (flush_buffer_shuffle (R := Mersenne.lib)
                       (Tests.dataset 3 42 0 5) (MkState 5 [3; 4; 5])) =
      (fun k => [3; 4; 5] !! k) <$> sigma.
Proof.
  pose proof (flush_reseeds_identically (R := Mersenne.lib)
                (Tests.dataset 3 42 0 5) Tests.IntegersDataset) as [H1 H2].
  split.
  - apply (H1 (Pulling (2 : gen Tests.IntegersDataset), MkState 2 [0; 1])
              [EvGate true; EvPull (GotItem 2); EvKeep 2] (Some 3)).
    reflexivity.
  - apply (H2 (MkState 2 [0; 1; 2]) (MkState 5 [3; 4; 5])). reflexivity.
Defined.

(** C9.  Along every traversal that starts with an empty buffer, and with a
    buffer size that is not negative, the buffer never holds more than
    [shuffle_buffer] items.  A flush is one uninterrupted stretch of the run:
    from its first item on, the machine emits the items of the shuffled
    buffer in order and nothing else (no pull, no new item kept) and ends
    with the buffer empty. *)
Theorem buffer_bounded_flush_atomic {R : RandomLib} {A : Type}
    (cfg : Config A) (src : Source A) :
  (forall st0 fuel tr m,
     0 <= shuffle_buffer cfg -> buffer st0 = [] ->
     run cfg src fuel (iter src st0) = (tr, m) ->
     Z.of_nat (length (buffer (snd m))) <= shuffle_buffer cfg) /\
  (forall k st, exists m',
     run cfg src (S (length (buffer st))) (Flushing 0 k, st) =
       (EvEmit <$> buffer st, m') /\
     buffer (snd m') = []).
Proof.
  split.
  - intros st0 fuel tr m Hsb Hempty Hrun.
    assert (bounded cfg src m) as Hb.
    { eapply steps_bounded; [by eapply run_steps|]. by left. }
    destruct Hb as [Hb|[Hb|[_ Hb]]]; [rewrite Hb; simpl|..]; lia.
  - intros k st. exists (flush_end k st). split.
    + by rewrite (flush_emits cfg src k st (length (buffer st)) 0).
    + by destruct k.
Qed.

Lemma buffer_bounded_flush_atomic_witness :
  Z.of_nat (length (buffer (snd (snd
    (run (R := Mersenne.lib) (Tests.dataset 3 42 0 5) Tests.IntegersDataset 4
       (iter _ fresh)))))) <= 3.
Proof.
  apply (proj1 (buffer_bounded_flush_atomic (R := Mersenne.lib)
                  (Tests.dataset 3 42 0 5) Tests.IntegersDataset)
           fresh 4%nat
           (fst (run (R := Mersenne.lib) (Tests.dataset 3 42 0 5)
                   Tests.IntegersDataset 4 (iter _ fresh)))).
  - discriminate.
  - reflexivity.
  - vm_compute; reflexivity.
Defined.

(** ** Failure of the source *)

Lemma items_app {A : Type} (t1 t2 : list (event A)) :
  items (t1 ++ t2) = items t1 + items t2.
Proof. unfold items. rewrite omap_app, length_app. lia. Qed.

Section Failure.
Context {R : RandomLib} {A : Type}.
Variable cfg : Config A.
Variable src : Source A.

#[local] Abbreviation machine := (pc (gen src) * RunState A)%type.

Lemma step_counter m evs m' :
  step cfg src m = Some (evs, m') -> fst m' <> Returned ->
  counter (snd m') + owed src m' = counter (snd m) + owed src m + items evs.
Proof.
  destruct m as [p st]. intros Hstep Hne. unfold owed, items.
  destruct p as [|g|g|i k| |e]; simpl in Hstep; simplify_eq/=; try lia.
  - unfold generator_with_buffer, generator_with_conditions, after_loop in Hstep.
    repeat (case_match; simplify_eq/=); rewrite ?omap_app; simpl; lia.
  - repeat (case_match; simplify_eq/=); lia.
Qed.

Lemma steps_counter m tr m' :
  steps cfg src m tr m' -> fst m' <> Returned ->
  counter (snd m') + owed src m' = counter (snd m) + owed src m + items tr.
Proof.
  induction 1 as [|m evs m1 tr m2 Hstep Hs IH]; intros Hne.
  - unfold items. simpl. lia.
  - assert (fst m1 <> Returned) as Hne1.
    { intros Heq. destruct m1 as [p1 st1]. simpl in Heq. subst p1.
      apply steps_halted in Hs as [_ ->]; done. }
    rewrite items_app, IH, (step_counter _ _ _ Hstep Hne1) by done. lia.
Qed.

(** The only way into [Failed e]: the source raised [e] at a pull the gate
    allowed, and nothing was done to the run state. *)
Lemma step_failed m evs e st' :
  step cfg src m = Some (evs, (Failed e, st')) ->
  exists g, m = (Pulling g, st') /\ next src g = Raised e /\
            limit_allows_one_more cfg st' = true /\
            evs = [EvGate true; EvPull (GotRaise e)].
Proof.
  destruct m as [p st]. intros Hstep.
  destruct p as [|g|g|i k| |e0]; simpl in Hstep; simplify_eq/=.
  - unfold generator_with_buffer, generator_with_conditions, after_loop in Hstep.
    repeat (case_match; simplify_eq/=). tests. eauto 10.
  - repeat (case_match; simplify_eq/=).
Qed.

Lemma steps_failed m tr e st' :
  steps cfg src m tr (Failed e, st') -> (forall e', fst m <> Failed e') ->
  exists tr0 g,
    steps cfg src m tr0 (Pulling g, st') /\ next src g = Raised e /\
    tr = tr0 ++ [EvGate true; EvPull (GotRaise e)].
Proof.
  intros Hs. remember (Failed e, st') as m' eqn:Em'.
  induction Hs as [m|m evs m1 tr m2 Hstep Hs IH]; intros Hne; subst.
  - by destruct (Hne e).
  - destruct m1 as [p1 st1].
    assert ((exists e1, p1 = Failed e1) \/ forall e1, p1 <> Failed e1)
      as [[e1 ->]|Hp] by (destruct p1; eauto; right; discriminate).
    + apply steps_halted in Hs as [-> Heq]; [|done]. simplify_eq.
      apply step_failed in Hstep as (g & -> & Hraise & _ & ->).
      exists [], g. split; [constructor|]. split; [done|].
      by rewrite app_nil_r.
    + destruct (IH eq_refl Hp) as (tr0 & g & Hs0 & Hraise & ->).
      exists (evs ++ tr0), g. split; [by econstructor|].
      split; [done|]. by rewrite (assoc (++)).
Qed.
End Failure.

(** C2, as the code has it.  When the source raises [e] at a pull, the
    machine stops in [Failed e] with that very exception, and the run state
    is the one of the failing pull: nothing resets it.  A traversal that ends
    in [Failed e] got there by such a pull, the consumer sees [e], the
    counter stands at its initial value plus the number of items pulled, and
    with a shuffle buffer the items kept and not yet emitted are still in the
    buffer. *)
Theorem source_failure_propagates {R : RandomLib} {A : Type}
    (cfg : Config A) (src : Source A) :
  (forall g st e,
     limit_allows_one_more cfg st = true -> next src g = Raised e ->
     step cfg src (Pulling g, st) =
       Some ([EvGate true; EvPull (GotRaise e)], (Failed e, st))) /\
  (forall st0 fuel tr e st',
     run cfg src fuel (iter src st0) = (tr, (Failed e, st')) ->
     list_of cfg src fuel st0 = (Raising e, st') /\
     (exists fuel0 tr0 g,
        run cfg src fuel0 (iter src st0) = (tr0, (Pulling g, st')) /\
        next src g = Raised e /\
        tr = tr0 ++ [EvGate true; EvPull (GotRaise e)]) /\
     counter st' = counter st0 + items tr /\
     (shuffle_buffer cfg > 1 ->
      buffer st0 ++ kept tr ≡ₚ emitted tr ++ buffer st')).
Proof.
  split.
  - intros g st e Hgate Hraise. simpl.
    unfold generator_with_buffer, generator_with_conditions.
    by rewrite Hgate, Hraise.
  - intros st0 fuel tr e st' Hrun.
    pose proof (run_steps _ _ _ _ _ _ Hrun) as Hs.
    split; [|split; [|split]].
    + unfold list_of. by rewrite Hrun.
    + destruct (steps_failed _ _ _ _ _ _ Hs) as (tr0 & g & Hs0 & Hraise & ->);
        [done|].
      apply steps_run in Hs0 as [fuel0 Hrun0]. eauto 10.
    + pose proof (steps_counter _ _ _ _ _ Hs) as Hc.
      unfold owed in Hc. simpl in Hc. specialize (Hc ltac:(done)). lia.
    + intros Hsb. by apply (steps_pending _ _ _ _ _ Hsb Hs).
Qed.

Lemma source_failure_propagates_witness :
  step (R := Mersenne.lib) (Tests.dataset 3 42 0 3) (Tests.FailingDataset 2)
       (Pulling (2 : gen (Tests.FailingDataset 2)), MkState 2 [0; 1]) =
    Some ([EvGate true; EvPull (GotRaise (OtherError 2))],
          (Failed (OtherError 2), MkState 2 [0; 1])) /\
  list_of (R := Mersenne.lib) (Tests.dataset 3 42 0 3) (Tests.FailingDataset 2)
    10 fresh = (Raising (OtherError 2), MkState 2 [0; 1]).
Proof.
  pose proof (source_failure_propagates (R := Mersenne.lib)
                (Tests.dataset 3 42 0 3) (Tests.FailingDataset 2)) as [H1 H2].
  split.
  - apply H1; reflexivity.
  - apply (H2 fresh 10%nat
              [EvGate true; EvPull (GotItem 0); EvKeep 0;
               EvGate true; EvPull (GotItem 1); EvKeep 1;
               EvGate true; EvPull (GotRaise (OtherError 2))]).
    reflexivity.
Defined.

(** C2, as the specification has it, fails.  A pipeline with
    [shuffle_buffer=3] and [limit=3] over a source that yields 0 and 1 and
    then raises: the consumer gets the exception while [counter] is 2 and the
    buffer holds both items.  The next traversal starts from that state and,
    unlike one on a new pipeline, returns normally with three items. *)
Lemma source_failure_leaves_run_state :
  list_of (R := Mersenne.lib) (Tests.dataset 3 42 0 3) (Tests.FailingDataset 2)
    10 fresh = (Raising (OtherError 2), MkState 2 [0; 1]) /\
  MkState 2 [0; 1] <> fresh /\
  list_of (R := Mersenne.lib) (Tests.dataset 3 42 0 3) (Tests.FailingDataset 2)
    10 (MkState 2 [0; 1]) = (Listed [1; 0; 0], fresh).
Proof.
  split; [reflexivity|]. split; [discriminate|]. vm_compute; reflexivity.
Qed.

(** ** The skip signal *)

(** C3 on the code.  The class has no [skip_next]: the call in
    [EvensDataset.generator] raises [AttributeError] when [n] reaches 1.
    With [limit=5] the traversal yields 0 and then fails, where the test
    expects [[0; 2; 4; 6; 8]]; with [offset=3], and with [shuffle_buffer=3],
    it fails at the same call before it has yielded anything. *)
Theorem skip_next_missing {R : RandomLib} (seed : Z) :
  Tests.call_method "skip_next" = inl (AttributeError "skip_next") /\
  run (Tests.dataset 1 seed 0 5) Tests.EvensDataset 4 (iter _ fresh) =
    ([EvGate true; EvPull (GotItem 0); EvKeep 0; EvEmit 0;
      EvGate true; EvPull (GotRaise (AttributeError "skip_next"))],
     (Failed (AttributeError "skip_next"), MkState 1 [])) /\
  (forall fuel,
     list_of (Tests.dataset 1 seed 0 5) Tests.EvensDataset (4 + fuel) fresh =
       (Raising (AttributeError "skip_next"), MkState 1 [])) /\
  list_of (Tests.dataset 1 seed 3 5) Tests.EvensDataset 3 fresh =
    (Raising (AttributeError "skip_next"), MkState 1 []) /\
  list_of (Tests.dataset 3 42 0 5) Tests.EvensDataset 3 fresh =
    (Raising (AttributeError "skip_next"), MkState 1 [0]).
Proof.
  split; [reflexivity|].
  assert (run (Tests.dataset 1 seed 0 5) Tests.EvensDataset 4 (iter _ fresh) =
            ([EvGate true; EvPull (GotItem 0); EvKeep 0; EvEmit 0;
              EvGate true; EvPull (GotRaise (AttributeError "skip_next"))],
             (Failed (AttributeError "skip_next"), MkState 1 []))) as Hrun
    by reflexivity.
  split; [exact Hrun|]. split; [|split; reflexivity].
  intros fuel. unfold list_of.
  rewrite (run_more _ _ 4 (4 + fuel) _ _ _ Hrun); [done..|lia].
Qed.

(** ** Limit zero *)

Section LimitZero.
Context {R : RandomLib} {A : Type}.
Variable cfg : Config A.
Variable src : Source A.
Hypothesis limit_zero : limit cfg = 0.

#[local] Abbreviation machine := (pc (gen src) * RunState A)%type.

Lemma gate_limit_zero (st : RunState A) :
  limit_allows_one_more cfg st = (counter st <? offset cfg).
Proof. unfold limit_allows_one_more. by rewrite limit_zero. Qed.

Lemma step_idle m evs m' :
  idle src m -> step cfg src m = Some (evs, m') ->
  idle src m' /\ emitted evs = [] /\ kept evs = [].
Proof.
  destruct m as [p st]. intros [Hbuf Hpc] Hstep. simpl in Hbuf, Hpc.
  unfold idle. destruct p as [|g|g|i k| |e]; try done; simplify_eq/=.
  - done.
  - unfold generator_with_buffer, generator_with_conditions, after_loop in Hstep.
    rewrite gate_limit_zero, Hbuf in Hstep.
    repeat (case_match; simplify_eq/=); done.
Qed.

Lemma steps_idle m tr m' :
  steps cfg src m tr m' -> idle src m -> emitted tr = [] /\ kept tr = [].
Proof.
  induction 1 as [|m evs m1 tr m2 Hstep _ IH]; intros Hidle; [done|].
  destruct (step_idle _ _ _ Hidle Hstep) as (Hidle1 & He & Hk).
  destruct (IH Hidle1) as [He1 Hk1].
  unfold emitted, kept in *. by rewrite !omap_app, He, Hk, He1, Hk1.
Qed.

Lemma run_S fuel m :
  run cfg src (S fuel) m =
  match step cfg src m with
  | None => ([], m)
  | Some (evs, m') => let (tr, m'') := run cfg src fuel m' in (evs ++ tr, m'')
  end.
Proof. reflexivity. Qed.

Lemma step_skip g c x g' :
  c < offset cfg -> next src g = Item x g' ->
  step cfg src (Pulling g, MkState c []) =
    Some ([EvGate true; EvPull (GotItem x)], (Pulling g', MkState (c + 1) [])).
Proof.
  intros Hc Hnext. simpl. unfold generator_with_buffer, generator_with_conditions.
  rewrite gate_limit_zero, Hnext. simpl.
  by destruct (Z.ltb_spec c (offset cfg)); [|lia].
Qed.

Lemma step_gate_closed g c :
  offset cfg <= c ->
  step cfg src (Pulling g, MkState c []) =
    Some ([EvGate false], (Returned, fresh)).
Proof.
  intros Hc. simpl. unfold generator_with_buffer, generator_with_conditions,
    after_loop.
  rewrite gate_limit_zero. simpl.
  destruct (Z.ltb_spec c (offset cfg)); [lia|]. simpl. by repeat case_match.
Qed.

Lemma step_no_item g c :
  c < offset cfg -> (forall x g', next src g <> Item x g') ->
  exists evs m, step cfg src (Pulling g, MkState c []) = Some (evs, m) /\
                step cfg src m = None.
Proof.
  intros Hc Hnext. simpl. unfold generator_with_buffer, generator_with_conditions,
    after_loop.
  rewrite gate_limit_zero. simpl.
  destruct (Z.ltb_spec c (offset cfg)); [|lia]. simpl.
  destruct (next src g) as [x g'| |e]; [by destruct (Hnext x g')|..];
    repeat case_match; simplify_eq/=; eauto.
Qed.

(** The skipping loop ends: the distance to the offset shrinks. *)
Lemma skipping_halts (n : nat) :
  forall g c, Z.to_nat (offset cfg - c) = n ->
    exists tr m, run cfg src (S n) (Pulling g, MkState c []) = (tr, m) /\
                 step cfg src m = None.
Proof.
  induction n as [|n IH]; intros g c Hn.
  - rewrite run_S, step_gate_closed by lia. simpl. eauto.
  - rewrite run_S. destruct (next src g) as [x g'| |e] eqn:Hnext.
    + rewrite (step_skip g c x g') by (done || lia).
      destruct (IH g' (c + 1)) as (tr & m & -> & Hhalt); [lia|]. eauto.
    + destruct (step_no_item g c) as (evs & m & -> & Hhalt);
        [lia|congruence|].
      rewrite run_halted by done. eauto.
    + destruct (step_no_item g c) as (evs & m & -> & Hhalt);
        [lia|congruence|].
      rewrite run_halted by done. eauto.
Qed.

(** With enough items in the source the loop skips [offset] of them. *)
Lemma skipping_run (n : nat) :
  forall g c xs, Z.to_nat (offset cfg - c) = n ->
    first_items src n g = Some xs ->
    run cfg src (S n) (Pulling g, MkState c []) =
      (skipped xs ++ [EvGate false], (Returned, fresh)).
Proof.
  induction n as [|n IH]; intros g c xs Hn Hxs.
  - simpl in Hxs. simplify_eq. by rewrite run_S, step_gate_closed by lia.
  - simpl in Hxs. destruct (next src g) as [x g'| |e] eqn:Hnext; try done.
    destruct (first_items src n g') as [xs'|] eqn:Hxs'; simpl in Hxs;
      simplify_eq.
    rewrite run_S, (step_skip g c x g') by (done || lia).
    by rewrite (IH g' (c + 1) xs') by (done || lia).
Qed.
End LimitZero.

Lemma first_items_length {A : Type} (src : Source A) (n : nat) :
  forall g xs, first_items src n g = Some xs -> length xs = n.
Proof.
  induction n as [|n IH]; intros g xs Hxs; simpl in Hxs; simplify_eq; [done|].
  destruct (next src g) as [x g'| |e]; try done.
  destruct (first_items src n g') as [xs'|] eqn:Hxs'; simpl in Hxs; simplify_eq.
  simpl. f_equal. by eapply IH.
Qed.

Lemma pulls_skipped {A : Type} (xs : list A) (tr : list (event A)) :
  pulls (skipped xs ++ tr) = (GotItem <$> xs) ++ pulls tr.
Proof.
  induction xs as [|x xs IH]; [done|].
  change (skipped (x :: xs) ++ tr)
    with (EvGate true :: EvPull (GotItem x) :: (skipped xs ++ tr)).
  change (pulls (EvGate true :: EvPull (GotItem x) :: (skipped xs ++ tr)))
    with (GotItem x :: pulls (skipped xs ++ tr)).
  by rewrite IH.
Qed.

(** C10, as the code has it.  With [limit = 0] a traversal from the initial
    state hands nothing to the consumer, whatever the source, the transforms
    and the shuffle settings, and it always ends.  When the source has
    [offset] items to give, the traversal pulls exactly those, skipping each,
    and returns at the first gate that gives [False]; the number of pulls is
    then [offset] (none when [offset <= 0]). *)
Theorem limit_zero_yields_nothing {R : RandomLib} {A : Type}
    (cfg : Config A) (src : Source A) :
  limit cfg = 0 ->
  (forall fuel tr m,
     run cfg src fuel (iter src fresh) = (tr, m) -> emitted tr = []) /\
  (exists fuel tr m,
     run cfg src fuel (iter src fresh) = (tr, m) /\ step cfg src m = None) /\
  (forall xs,
     first_items src (Z.to_nat (offset cfg)) (generator src) = Some xs ->
     run cfg src (S (S (Z.to_nat (offset cfg)))) (iter src fresh) =
       (skipped xs ++ [EvGate false], (Returned, fresh)) /\
     pulls (skipped xs ++ [EvGate false]) = GotItem <$> xs /\
     length xs = Z.to_nat (offset cfg)).
Proof.
  intros Hlim. split; [|split].
  - intros fuel tr m Hrun.
    eapply (steps_idle cfg src Hlim); [by eapply run_steps|done].
  - destruct (skipping_halts cfg src Hlim (Z.to_nat (offset cfg))
                (generator src) 0) as (tr & m & Hrun & Hhalt); [f_equal; lia|].
    exists (S (S (Z.to_nat (offset cfg)))), tr, m. split; [|done].
    rewrite run_S. simpl step. unfold fresh. by rewrite Hrun.
  - intros xs Hxs. split; [|split].
    + rewrite run_S. simpl step. unfold fresh at 1.
      rewrite (skipping_run cfg src Hlim _ _ 0 xs); [done|f_equal; lia|done].
    + rewrite pulls_skipped. simpl. by rewrite app_nil_r.
    + by eapply first_items_length.
Qed.

Lemma limit_zero_yields_nothing_witness :
  emitted (fst (run (R := Mersenne.lib) (Tests.dataset 3 42 3 0)
                  Tests.IntegersDataset 4 (iter _ fresh))) = [] /\
  run (R := Mersenne.lib) (Tests.dataset 3 42 3 0) Tests.IntegersDataset 5
      (iter _ fresh) =
    (skipped [0; 1; 2] ++ [EvGate false], (Returned, fresh)) /\
  pulls (skipped [0; 1; 2] ++ [EvGate false]) = GotItem <$> [0; 1; 2] /\
  length [0; 1; 2] = 3%nat.
Proof.
  pose proof (limit_zero_yields_nothing (R := Mersenne.lib)
                (Tests.dataset 3 42 3 0) Tests.IntegersDataset eq_refl)
    as (H1 & _ & H3).
  split.
  - apply (H1 4%nat _ (Pulling 3, MkState 3 [])). reflexivity.
  - apply (H3 [0; 1; 2]). reflexivity.
Defined.

(** C10, as stated, fails on a source that ends early.  With [offset=3] and
    [limit=0] over [range(1)] the source is pulled twice, not three times:
    one item, which is skipped, and the end of the sequence. *)
Lemma limit_zero_short_source :
  run (R := Mersenne.lib) (Tests.dataset 1 42 3 0) (Tests.RangeDataset 1) 10
      (iter _ fresh) =
    ([EvGate true; EvPull (GotItem 0); EvGate true; EvPull GotStop],
     (Returned, fresh)) /\
  Z.of_nat (length (pulls (A := Z)
     [EvGate true; EvPull (GotItem 0); EvGate true; EvPull GotStop])) <>
  offset (Tests.dataset 1 42 3 0).
Proof. split; [reflexivity|discriminate]. Qed.

(** * Further properties *)

(** ** The source is pulled in order *)

Section Pulls.
Context {R : RandomLib} {A : Type}.
Variable cfg : Config A.
Variable src : Source A.

#[local] Abbreviation machine := (pc (gen src) * RunState A)%type.

Lemma step_returned_halts tr m' st :
  steps cfg src (Returned, st) tr m' -> tr = [] /\ m' = (Returned, st).
Proof. by apply steps_halted. Qed.

Lemma steps_follow m tr m' :
  steps cfg src m tr m' ->
  match position src m with
  | Some g => follows src g (pulls tr)
  | None => pulls tr = []
  end.
Proof.
  induction 1 as [[p st]|[p st] evs m1 tr m2 Hstep Hs IH].
  - unfold position. by repeat case_match.
  - unfold pulls in *. rewrite omap_app. unfold position in *.
    destruct p as [|g|g|i k| |e]; simpl in Hstep; simplify_eq/=; try done.
    + unfold generator_with_buffer, generator_with_conditions, after_loop
        in Hstep.
      repeat (case_match; simplify_eq/=); try done;
        repeat match goal with H : next src _ = _ |- _ => rewrite H end;
        rewrite ?IH; done.
    + destruct (buffer st !! i); [|destruct k]; simplify_eq/=; done.
Qed.

Lemma items_raw (tr : list (event A)) : items tr = Z.of_nat (length (raw tr)).
Proof. reflexivity. Qed.

(** What one transition keeps, given what it pulls. *)
Lemma step_kept m evs m' :
  step cfg src m = Some (evs, m') ->
  kept evs =
    transform_x cfg <$>
      drop (Z.to_nat (offset cfg - (counter (snd m) + owed src m))) (raw evs).
Proof.
  destruct m as [p st]. intros Hstep. unfold owed.
  destruct p as [|g|g|i k| |e]; simpl in Hstep; simplify_eq/=.
  - by rewrite drop_nil.
  - unfold generator_with_buffer, generator_with_conditions, after_loop
      in Hstep.
    repeat (case_match; simplify_eq/=); tests;
      unfold kept, raw; rewrite ?omap_app; simpl; rewrite ?drop_nil;
      try done;
      destruct (Z.to_nat (offset cfg - (counter st + 0))) eqn:E;
      simpl; rewrite ?drop_nil; first [done | exfalso; lia].
  - by rewrite drop_nil.
  - destruct (buffer st !! i); [|destruct k]; simplify_eq/=;
      by rewrite ?drop_nil.
Qed.

Lemma steps_kept m tr m' :
  steps cfg src m tr m' ->
  kept tr =
    transform_x cfg <$>
      drop (Z.to_nat (offset cfg - (counter (snd m) + owed src m))) (raw tr).
Proof.
  induction 1 as [m|m evs m1 tr m2 Hstep Hs IH].
  - unfold raw. simpl. by rewrite drop_nil.
  - unfold kept, raw in *. rewrite !omap_app, drop_app, fmap_app.
    fold (kept evs) (raw evs). rewrite (step_kept _ _ _ Hstep). f_equal.
    destruct m1 as [p1 st1].
    assert (p1 = Returned \/ p1 <> Returned) as [->|Hp]
      by (destruct p1; auto; right; discriminate).
    + apply steps_halted in Hs as [-> _]; [|done]. simpl.
      by rewrite !drop_nil.
    + pose proof (step_counter cfg src _ _ _ Hstep Hp) as Hc.
      rewrite items_raw in Hc. simpl in Hc. rewrite IH. do 2 f_equal.
      simpl. rewrite Hc. unfold raw.
      generalize (counter m.2 + owed src m). intros c. lia.
Qed.
End Pulls.

(** X1.  In every traversal the outcomes of the pulls are those of successive
    [next] calls on the one generator object [generator()] returned: each
    item is pulled once and in order, and after the source has ended or
    raised it is not pulled again. *)
Theorem pulls_follow_source {R : RandomLib} {A : Type}
    (cfg : Config A) (src : Source A) (fuel : nat) (st : RunState A) :
  follows src (generator src) (pulls (fst (run cfg src fuel (iter src st)))).
Proof.
  destruct (run cfg src fuel (iter src st)) as [tr m'] eqn:Hrun.
  apply (steps_follow cfg src _ _ _ (run_steps _ _ _ _ _ _ Hrun)).
Qed.

(** X2.  The items the inner generator yields are the pulled ones but for the
    first [offset - counter] of them (none are dropped when that is not
    positive), each passed through the chain of transforms, in the order of
    the pulls.  [counter] is the value the traversal starts with: 0 on a
    pipeline in its initial state. *)
Theorem kept_after_offset {R : RandomLib} {A : Type}
    (cfg : Config A) (src : Source A) (fuel : nat) (st : RunState A) :
  kept (fst (run cfg src fuel (iter src st))) =
    transform_x cfg <$>
      drop (Z.to_nat (offset cfg - counter st))
           (raw (fst (run cfg src fuel (iter src st)))).
Proof.
  destruct (run cfg src fuel (iter src st)) as [tr m'] eqn:Hrun.
  simpl. rewrite (steps_kept cfg src _ _ _ (run_steps _ _ _ _ _ _ Hrun)).
  unfold owed. simpl. do 2 f_equal. lia.
Qed.

(** ** What the consumer gets, given what is kept *)

Lemma emits_only {A : Type} (tr : list (event A)) :
  forallb is_emit tr = true -> kept tr = [] /\ pulls tr = [] /\ raw tr = [].
Proof.
  induction tr as [|ev tr IH]; [done|]. simpl.
  intros [Hev Htr]%andb_true_iff. destruct ev; try done. by apply IH.
Qed.

Section Chunks.
Context {A : Type}.
Variable n : nat.
Hypothesis n_pos : (0 < n)%nat.

Lemma chunks_upto_enough (fuel1 : nat) :
  forall (fuel2 : nat) (l : list A),
    (length l <= fuel1)%nat -> (length l <= fuel2)%nat ->
    chunks_upto fuel1 n l = chunks_upto fuel2 n l.
Proof.
  induction fuel1 as [|fuel1 IH]; intros fuel2 l H1 H2.
  - destruct l; [by destruct fuel2|simpl in H1; lia].
  - destruct l as [|x l]; [by destruct fuel2|].
    destruct fuel2 as [|fuel2]; [simpl in H2; lia|].
    cbn [chunks_upto]. f_equal.
    apply IH; rewrite length_drop; simpl in *; lia.
Qed.

Lemma chunks_nil : chunks n (@nil A) = [].
Proof. reflexivity. Qed.

Lemma chunks_short (l : list A) :
  l <> [] -> (length l <= n)%nat -> chunks n l = [l].
Proof.
  intros Hne Hlen. unfold chunks. destruct l as [|x l]; [done|].
  simpl in Hlen. simpl length. cbn [chunks_upto].
  rewrite take_ge, drop_ge by (simpl; lia). by destruct (length l).
Qed.

Lemma chunks_app (a b : list A) :
  length a = n -> chunks n (a ++ b) = a :: chunks n b.
Proof.
  intros Hlen. unfold chunks at 1.
  destruct (a ++ b) as [|x l] eqn:Hab.
  { apply (f_equal length) in Hab. rewrite length_app in Hab.
    simpl in Hab. lia. }
  simpl length. cbn [chunks_upto]. rewrite <- Hab.
  rewrite take_app_length', drop_app_length' by done. f_equal.
  apply chunks_upto_enough; [|done].
  apply (f_equal length) in Hab. rewrite length_app in Hab. simpl in Hab. lia.
Qed.
End Chunks.

Section Output.
Context {R : RandomLib} {A : Type}.
Variable cfg : Config A.
Variable src : Source A.

#[local] Abbreviation machine := (pc (gen src) * RunState A)%type.

(** Without a shuffle buffer a kept item is handed over at once, and the
    buffer is left alone until the reset. *)
Lemma steps_unbuffered m tr m' :
  shuffle_buffer cfg <= 1 -> (forall i k, fst m <> Flushing i k) ->
  steps cfg src m tr m' ->
  emitted tr = kept tr /\
  (fst m' = Returned \/ buffer (snd m') = buffer (snd m)).
Proof.
  intros Hsb Hpc Hs. induction Hs as [m|[p st] evs m1 tr m2 Hstep Hs IH].
  - auto.
  - assert (emitted evs = kept evs /\
            (forall i k, fst m1 <> Flushing i k) /\
            (fst m1 = Returned \/ buffer (snd m1) = buffer st))
      as (Hevs & Hpc1 & Hbuf1).
    { destruct p as [|g|g|i k| |e]; simpl in Hstep; simplify_eq/=.
      - split_and!; auto.
      - unfold generator_with_buffer, generator_with_conditions, after_loop
          in Hstep.
        repeat (case_match; simplify_eq/=); tests; try lia;
          unfold emitted, kept; rewrite ?omap_app; simpl;
          split_and!; auto.
      - split_and!; auto.
      - by destruct (Hpc i k). }
    destruct (IH Hpc1) as [Htr Hbuf].
    unfold emitted, kept in *. rewrite !omap_app, Hevs, Htr.
    split; [done|]. simpl.
    destruct Hbuf as [?|Hbuf]; [by left|].
    destruct Hbuf1 as [Hret|Hbuf1]; [|right; congruence].
    left. destruct m1 as [p1 st1]. simpl in Hret. subst p1.
    by apply steps_halted in Hs as [_ ->].
Qed.

Lemma steps_buffered m tr st' :
  shuffle_buffer cfg > 1 -> steps cfg src m tr (Returned, st') ->
  emitted tr = to_emit cfg src m (kept tr).
Proof.
  intros Hsb Hs. remember (Returned, st') as m' eqn:Em'.
  induction Hs as [m|[p st] evs m1 tr m2 Hstep Hs IH]; subst; [done|].
  specialize (IH eq_refl). unfold emitted, kept in *. rewrite !omap_app, IH.
  unfold to_emit. clear IH.
  destruct p as [|g|g|i k| |e]; simpl in Hstep; simplify_eq/=.
  - done.
  - unfold generator_with_buffer, generator_with_conditions, after_loop
      in Hstep.
    repeat (case_match; simplify_eq/=); tests; try lia;
      try (by apply steps_halted in Hs as [_ ?]);
      try (apply steps_halted in Hs as [-> _]; [|done]; simpl;
           by repeat case_match; tests; try lia);
      try (pose proof (draining_steps cfg src _ _ _ Hs
                         ltac:(right; by eexists)) as Hd;
           apply emits_only in Hd as (Hk & _); unfold kept in Hk;
           rewrite Hk; simpl; by repeat case_match; tests; try lia);
      simpl; repeat case_match; tests; try lia; try done.
  - done.
  - destruct (buffer st !! i) as [y|] eqn:Hy.
    + simplify_eq/=. rewrite (drop_S _ _ _ Hy). by destruct k.
    + apply lookup_ge_None in Hy. rewrite drop_ge by done.
      destruct k; simplify_eq/=; [done|].
      by apply steps_halted in Hs as [-> _].
Qed.

Lemma buffered_chunks (ys : list A) :
  shuffle_buffer cfg > 1 ->
  forall buf, Z.of_nat (length buf) < shuffle_buffer cfg ->
    buffered cfg buf ys =
      concat (shuffle (Random (shuffle_seed cfg)) <$>
              chunks (Z.to_nat (shuffle_buffer cfg)) (buf ++ ys)).
Proof.
  intros Hsb. induction ys as [|y ys IH]; intros buf Hbuf; simpl.
  - rewrite app_nil_r. destruct buf as [|b buf]; [done|].
    destruct (Z.gtb_spec (Z.of_nat (length (b :: buf))) 0);
      [|simpl in *; lia].
    rewrite chunks_short by (done || lia). simpl. by rewrite app_nil_r.
  - replace (buf ++ y :: ys) with ((buf ++ [y]) ++ ys)
      by (by rewrite <- app_assoc).
    destruct (Z.geb_spec (Z.of_nat (length (buf ++ [y])))
                (shuffle_buffer cfg)) as [Hfull|Hroom].
    + rewrite length_app in Hfull. simpl in Hfull.
      rewrite chunks_app by (rewrite ?length_app; simpl; lia).
      simpl. f_equal. apply (IH []). simpl. lia.
    + by apply IH.
Qed.
End Output.

(** X3.  With [shuffle_buffer <= 1] the consumer gets, at any point of a
    traversal and in this order, the pulled items but for the first
    [offset - counter] of them, each passed through the transforms; the
    buffer is not used. *)
Theorem unbuffered_output {R : RandomLib} {A : Type}
    (cfg : Config A) (src : Source A) (fuel : nat) (st : RunState A) :
  shuffle_buffer cfg <= 1 ->
  emitted (fst (run cfg src fuel (iter src st))) =
    transform_x cfg <$>
      drop (Z.to_nat (offset cfg - counter st))
           (raw (fst (run cfg src fuel (iter src st)))) /\
  (fst (snd (run cfg src fuel (iter src st))) = Returned \/
   buffer (snd (snd (run cfg src fuel (iter src st)))) = buffer st).
Proof.
  intros Hsb.
  destruct (run cfg src fuel (iter src st)) as [tr m'] eqn:Hrun.
  pose proof (run_steps _ _ _ _ _ _ Hrun) as Hs. simpl.
  destruct (steps_unbuffered cfg src (iter src st) tr m' Hsb
              ltac:(intros i k; simpl; discriminate) Hs) as [-> Hbuf].
  split; [|done].
  rewrite (steps_kept cfg src _ _ _ Hs). unfold owed. simpl.
  do 2 f_equal. lia.
Qed.

Lemma unbuffered_output_witness :
  emitted (fst (run (R := Mersenne.lib) (Tests.dataset 1 42 5 2)
                  Tests.IntegersDataset 20 (iter _ fresh))) =
    transform_x (Tests.dataset 1 42 5 2) <$>
      drop (Z.to_nat (5 - 0))
        (raw (fst (run (R := Mersenne.lib) (Tests.dataset 1 42 5 2)
                     Tests.IntegersDataset 20 (iter _ fresh)))).
Proof.
  apply (unbuffered_output (R := Mersenne.lib) (Tests.dataset 1 42 5 2)
           Tests.IntegersDataset 20 fresh).
  discriminate.
Defined.

(** X4.  With [shuffle_buffer > 1] the output of a traversal that starts with
    an empty buffer and returns is the sequence of kept items cut into
    pieces of [shuffle_buffer] items, the last piece possibly shorter, each
    piece shuffled by [Random(shuffle_seed)] and the pieces in their
    order. *)
Theorem shuffled_output_in_chunks {R : RandomLib} {A : Type}
    (cfg : Config A) (src : Source A) (fuel : nat) (st st' : RunState A)
    (tr : list (event A)) :
  shuffle_buffer cfg > 1 -> buffer st = [] ->
  run cfg src fuel (iter src st) = (tr, (Returned, st')) ->
  emitted tr =
    concat (shuffle (Random (shuffle_seed cfg)) <$>
            chunks (Z.to_nat (shuffle_buffer cfg)) (kept tr)).
Proof.
  intros Hsb Hbuf Hrun.
  rewrite (steps_buffered cfg src _ _ _ Hsb (run_steps _ _ _ _ _ _ Hrun)).
  unfold to_emit. simpl. rewrite Hbuf.
  rewrite buffered_chunks by (done || simpl; lia). done.
Qed.

Lemma shuffled_output_in_chunks_witness :
  emitted (fst (run (R := Mersenne.lib) (Tests.dataset 3 42 0 5)
                  Tests.IntegersDataset 20 (iter _ fresh))) =
    concat (shuffle (R := Mersenne.lib) (Random 42) <$>
            chunks 3 (kept (fst (run (R := Mersenne.lib)
                                   (Tests.dataset 3 42 0 5)
                                   Tests.IntegersDataset 20 (iter _ fresh))))).
Proof.
  apply (shuffled_output_in_chunks (R := Mersenne.lib)
           (Tests.dataset 3 42 0 5) Tests.IntegersDataset 20 fresh fresh).
  - reflexivity.
  - reflexivity.
  - vm_compute; reflexivity.
Defined.

(** ** The limit *)

Lemma raw_pulls_length {A : Type} (tr : list (event A)) :
  (length (raw tr) <= length (pulls tr))%nat.
Proof.
  induction tr as [|ev tr IH]; [done|].
  destruct ev as [b|[x| |e]|y|y]; simpl; lia.
Qed.

Lemma raw_of_pulls {A : Type} (tr : list (event A)) :
  raw tr =
  omap (fun o => match o with GotItem x => Some x | _ => None end) (pulls tr).
Proof.
  induction tr as [|ev tr IH]; [done|].
  destruct ev as [b|[x| |e]|y|y]; simpl; by rewrite ?IH.
Qed.

Section Limit.
Context {R : RandomLib} {A : Type}.
Variable cfg : Config A.
Variable src : Source A.
Hypothesis limit_set : 0 <= limit cfg.

#[local] Abbreviation machine := (pc (gen src) * RunState A)%type.

Lemma gate_limit_set (st : RunState A) :
  limit_allows_one_more cfg st = (counter st <? limit cfg + offset cfg).
Proof.
  unfold limit_allows_one_more.
  by destruct (Z.ltb_spec (limit cfg) 0); [lia|].
Qed.

(** A transition pulls at most once, behind an open gate; and after a pull
    that gave no item the source is out of reach. *)
Lemma step_pull m evs m' :
  step cfg src m = Some (evs, m') ->
  pulls evs = [] \/
  exists o, pulls evs = [o] /\
    counter (snd m) + owed src m < limit cfg + offset cfg /\
    match o with
    | GotItem _ => fst m' <> Returned
    | _ => position src m' = None
    end.
Proof.
  destruct m as [p st]. intros Hstep. unfold owed, position.
  destruct p as [|g|g|i k| |e]; simpl in Hstep; simplify_eq/=; auto.
  - unfold generator_with_buffer, generator_with_conditions, after_loop
      in Hstep.
    rewrite gate_limit_set in Hstep.
    repeat (case_match; simplify_eq/=); tests; auto;
      right; eexists; (split; [reflexivity|]); (split; [lia|]);
      simpl; by repeat case_match.
  - destruct (buffer st !! i); [|destruct k]; simplify_eq/=; auto.
Qed.

Lemma steps_pulls_bound m tr m' :
  steps cfg src m tr m' ->
  Z.of_nat (length (pulls tr)) <=
    Z.max 0 (limit cfg + offset cfg - (counter (snd m) + owed src m)).
Proof.
  induction 1 as [m|m evs m1 tr m2 Hstep Hs IH]; [simpl; lia|].
  unfold pulls in *. rewrite omap_app, length_app.
  fold (pulls evs) (pulls tr) in *.
  destruct m1 as [p1 st1].
  assert (p1 = Returned \/ p1 <> Returned) as [->|Hp]
    by (destruct p1; auto; right; discriminate).
  { pose proof (steps_follow cfg src _ _ _ Hs) as Hf. simpl in Hf.
    rewrite Hf. destruct (step_pull _ _ _ Hstep) as [->|(o & -> & Hc & _)];
      simpl; lia. }
  pose proof (step_counter cfg src _ _ _ Hstep Hp) as Hc. simpl in Hc.
  rewrite items_raw in Hc.
  pose proof (raw_pulls_length evs) as Hraw.
  destruct (step_pull _ _ _ Hstep) as [Hev|(o & Hev & Hgate & Ho)];
    rewrite Hev in *; simpl in *.
  - lia.
  - destruct o as [x| |e].
    + rewrite raw_of_pulls, Hev in Hc. simpl in Hc.
      lia.
    + pose proof (steps_follow cfg src _ _ _ Hs) as Hf. rewrite Ho in Hf.
      rewrite Hf. simpl. lia.
    + pose proof (steps_follow cfg src _ _ _ Hs) as Hf. rewrite Ho in Hf.
      rewrite Hf. simpl. lia.
Qed.
(** Every transition lowers the rank. *)
Lemma step_rank m evs m' :
  step cfg src m = Some (evs, m') -> (rank cfg src m' < rank cfg src m)%nat.
Proof.
  destruct m as [p st]. intros Hstep. unfold rank, owed.
  destruct p as [|g|g|i k| |e]; simpl in Hstep; simplify_eq/=.
  - lia.
  - unfold generator_with_buffer, generator_with_conditions, after_loop
      in Hstep.
    rewrite gate_limit_set in Hstep.
    repeat (case_match; simplify_eq/=); tests;
      rewrite ?shuffle_length, ?length_app; simpl; lia.
  - replace (counter st + 1 + 0) with (counter st + 1) by lia. lia.
  - destruct (buffer st !! i) as [y|] eqn:Hy; [|destruct k]; simplify_eq/=.
    + apply lookup_lt_Some in Hy. destruct k; lia.
    + replace (counter st + 1 + 0) with (counter st + 1) by lia. lia.
    + lia.
Qed.

Lemma run_halts (n : nat) :
  forall m, (rank cfg src m <= n)%nat ->
    step cfg src (snd (run cfg src n m)) = None.
Proof.
  induction n as [|n IH]; intros m Hrank.
  - simpl. destruct m as [[|g|g|i [g|]| |e] st];
      unfold rank in Hrank; simpl in Hrank; try lia; done.
  - simpl. destruct (step cfg src m) as [[evs m1]|] eqn:Hstep; [|done].
    pose proof (step_rank _ _ _ Hstep) as Hlt.
    specialize (IH m1 ltac:(lia)).
    by destruct (run cfg src n m1).
Qed.
End Limit.

Section Endless.
Context {R : RandomLib} {A : Type}.
Variable cfg : Config A.
Variable src : Source A.
Hypothesis no_limit : limit cfg < 0.
Hypothesis endless : forall g, exists x g', next src g = Item x g'.

Lemma step_alive m :
  alive src m ->
  exists evs m', step cfg src m = Some (evs, m') /\ alive src m'.
Proof.
  destruct m as [p st]. unfold alive.
  destruct p as [|g|g|i [g|]| |e]; simpl; try done; intros _.
  - by eexists _, _.
  - unfold generator_with_buffer, generator_with_conditions.
    unfold limit_allows_one_more.
    destruct (Z.ltb_spec (limit cfg) 0); [|lia]. simpl.
    destruct (endless g) as (x & g' & ->).
    repeat case_match; simplify_eq/=; by eexists _, _.
  - by eexists _, _.
  - destruct (buffer st !! i); by eexists _, _.
Qed.

Lemma run_alive (fuel : nat) :
  forall m, alive src m -> alive src (snd (run cfg src fuel m)).
Proof.
  induction fuel as [|fuel IH]; intros m Halive; [done|].
  destruct (step_alive m Halive) as (evs & m' & Hstep & Halive').
  simpl. rewrite Hstep. specialize (IH m' Halive').
  by destruct (run cfg src fuel m').
Qed.
End Endless.

(** X5.  With [limit >= 0], a traversal that starts with an empty buffer
    pulls the source at most [limit + offset - counter] times, the pull that
    finds it ended or failing included, and hands the consumer at most
    [limit] items. *)
Theorem limit_bounds_traversal {R : RandomLib} {A : Type}
    (cfg : Config A) (src : Source A) (fuel : nat) (st : RunState A) :
  0 <= limit cfg -> buffer st = [] ->
  Z.of_nat (length (pulls (fst (run cfg src fuel (iter src st))))) <=
    Z.max 0 (limit cfg + offset cfg - counter st) /\
  Z.of_nat (length (emitted (fst (run cfg src fuel (iter src st))))) <=
    limit cfg.
Proof.
  intros Hlim Hbuf.
  destruct (run cfg src fuel (iter src st)) as [tr m'] eqn:Hrun.
  pose proof (run_steps _ _ _ _ _ _ Hrun) as Hs. simpl.
  pose proof (steps_pulls_bound cfg src Hlim _ _ _ Hs) as Hpulls.
  unfold owed in Hpulls. simpl in Hpulls.
  replace (counter st + 0) with (counter st) in Hpulls by lia.
  split; [done|].
  pose proof (steps_kept cfg src _ _ _ Hs) as Hkept.
  unfold owed in Hkept. simpl in Hkept.
  apply (f_equal length) in Hkept.
  rewrite length_fmap, length_drop in Hkept.
  pose proof (raw_pulls_length tr) as Hraw.
  assert (length (emitted tr) <= length (kept tr))%nat as Hemit.
  { destruct (Z.gtb_spec (shuffle_buffer cfg) 1) as [Hsb|Hsb].
    - pose proof (steps_pending cfg src _ _ _ ltac:(lia) Hs) as Hp.
      apply Permutation_length in Hp. revert Hp.
      unfold pending. simpl. rewrite Hbuf, !length_app. simpl. lia.
    - destruct (steps_unbuffered cfg src (iter src st) tr m' Hsb
                  ltac:(intros i k; simpl; discriminate) Hs) as [-> _].
      done. }
  lia.
Qed.

Lemma limit_bounds_traversal_witness :
  Z.of_nat (length (pulls (fst (run (R := Mersenne.lib)
     (Tests.dataset 3 42 5 2) (Tests.FailingDataset 6) 30 (iter _ fresh))))) <=
    Z.max 0 (2 + 5 - 0) /\
  Z.of_nat (length (emitted (fst (run (R := Mersenne.lib)
     (Tests.dataset 3 42 5 2) (Tests.FailingDataset 6) 30 (iter _ fresh))))) <=
    2.
Proof.
  apply (limit_bounds_traversal (R := Mersenne.lib) (Tests.dataset 3 42 5 2)
           (Tests.FailingDataset 6) 30 fresh); [discriminate|reflexivity].
Defined.

(** X6.  With [limit >= 0] every traversal ends, by returning or by the
    source's exception, whatever the source and the state it starts from:
    [list(ds)] is over within three transitions for each pull the gate can
    still allow, one for each buffered item, and four more. *)
Theorem limited_traversal_ends {R : RandomLib} {A : Type}
    (cfg : Config A) (src : Source A) (st : RunState A) (fuel : nat) :
  0 <= limit cfg ->
  (3 * Z.to_nat (limit cfg + offset cfg - counter st)
   + length (buffer st) + 4 <= fuel)%nat ->
  fst (list_of cfg src fuel st) <> Unfinished.
Proof.
  intros Hlim Hfuel.
  pose proof (run_halts cfg src Hlim fuel (iter src st)) as Hhalt.
  unfold rank, owed in Hhalt. simpl in Hhalt.
  replace (counter st + 0) with (counter st) in Hhalt by lia.
  specialize (Hhalt ltac:(lia)). unfold list_of.
  destruct (run cfg src fuel (iter src st)) as [tr [p st']].
  simpl in *. destruct p as [|g|g|i k| |e]; try done.
  by destruct (buffer st' !! i); [|destruct k].
Qed.

Lemma limited_traversal_ends_witness :
  fst (list_of (R := Mersenne.lib) (Tests.dataset 3 42 5 2)
         Tests.IntegersDataset 25 fresh) <> Unfinished.
Proof.
  apply (limited_traversal_ends (R := Mersenne.lib) (Tests.dataset 3 42 5 2)
           Tests.IntegersDataset fresh 25); [discriminate|].
  vm_compute. lia.
Defined.

(** X7.  With [limit < 0] over a source that never ends nor fails, no
    traversal ever ends: [list(ds)] is unfinished whatever the fuel. *)
Theorem unlimited_traversal_runs_on {R : RandomLib} {A : Type}
    (cfg : Config A) (src : Source A) (st : RunState A) (fuel : nat) :
  limit cfg < 0 -> (forall g, exists x g', next src g = Item x g') ->
  fst (list_of cfg src fuel st) = Unfinished.
Proof.
  intros Hlim Hendless.
  pose proof (run_alive cfg src Hlim Hendless fuel (iter src st) I) as Halive.
  unfold list_of. destruct (run cfg src fuel (iter src st)) as [tr [p st']].
  unfold alive in Halive. simpl in *. by destruct p as [|g|g|i [g|]| |e].
Qed.

Lemma unlimited_traversal_runs_on_witness :
  fst (list_of (R := Mersenne.lib) (Tests.dataset 3 42 5 (-1))
         Tests.IntegersDataset 50 fresh) = Unfinished.
Proof.
  apply (unlimited_traversal_runs_on (R := Mersenne.lib)
           (Tests.dataset 3 42 5 (-1)) Tests.IntegersDataset fresh 50).
  - reflexivity.
  - intros g. exists g, (g + 1). reflexivity.
Defined.

(** ** The output of a traversal *)

Lemma raw_emits {A : Type} (l : list A) : raw (EvEmit <$> l) = [].
Proof. induction l as [|y l IH]; [done|]. by simpl. Qed.

Lemma raw_app {A : Type} (t1 t2 : list (event A)) :
  raw (t1 ++ t2) = raw t1 ++ raw t2.
Proof. unfold raw. by rewrite omap_app. Qed.

Section Traversal.
Context {R : RandomLib} {A : Type}.
Variable cfg : Config A.
Variable src : Source A.

#[local] Abbreviation machine := (pc (gen src) * RunState A)%type.

Lemma steps_trans (m1 m2 m3 : machine) t1 t2 :
  steps cfg src m1 t1 m2 -> steps cfg src m2 t2 m3 ->
  steps cfg src m1 (t1 ++ t2) m3.
Proof.
  induction 1 as [|m evs m1' tr m2' Hstep _ IH]; intros H2; [exact H2|].
  rewrite <- app_assoc. econstructor; eauto.
Qed.

Lemma steps_one (m m' : machine) evs :
  step cfg src m = Some (evs, m') -> steps cfg src m evs m'.
Proof.
  intros Hstep. rewrite <- (app_nil_r evs). econstructor; [done|constructor].
Qed.

(** A whole flush, as one stretch of a run. *)
Lemma steps_flush (k : option (gen src)) (st : RunState A) :
  steps cfg src (Flushing 0 k, st) (EvEmit <$> buffer st) (flush_end k st).
Proof.
  eapply run_steps.
  by apply (flush_emits cfg src k st (length (buffer st)) 0).
Qed.

(** From one pull of an item to the next pull. *)
Lemma steps_item g st x g1 :
  limit_allows_one_more cfg st = true -> next src g = Item x g1 ->
  exists tr st1,
    steps cfg src (Pulling g, st) tr (Pulling g1, st1) /\
    raw tr = [x] /\ counter st1 = counter st + 1.
Proof.
  intros Hgate Hnext.
  destruct (step cfg src (Pulling g, st)) as [[evs m1]|] eqn:Hstep; [|done].
  pose proof (steps_one _ _ _ Hstep) as Hs1. simpl in Hstep.
  unfold generator_with_buffer, generator_with_conditions in Hstep.
  rewrite Hgate, Hnext in Hstep. simpl in Hstep.
  repeat (case_match; simplify_eq/=);
    first
      [ by (eexists _, _; split; [exact Hs1|])
      | eexists _, (MkState (counter st + 1) []); split;
        [eapply steps_trans; [exact Hs1|exact (steps_flush _ _)]|];
        by rewrite raw_app, raw_emits
      | eexists _, _; split;
        [eapply steps_trans; [exact Hs1|by apply steps_one]|];
        done ].
Qed.

(** The items [xs] pulled one after the other, the gate letting them by. *)
Lemma steps_items (xs : list A) :
  forall g st g',
    pull_items src (length xs) g = Some (xs, g') ->
    limit cfg < 0 \/
    Z.of_nat (length xs) <= Z.max 0 (limit cfg + offset cfg - counter st) ->
    exists tr st',
      steps cfg src (Pulling g, st) tr (Pulling g', st') /\
      raw tr = xs /\ counter st' = counter st + Z.of_nat (length xs).
Proof.
  induction xs as [|x xs IH]; intros g st g' Hpull Hgate.
  - simpl in Hpull. simplify_eq. exists [], st.
    split; [constructor|]. split; [done|simpl; lia].
  - simpl in Hpull. destruct (next src g) as [x' g1| |e] eqn:Hnext; try done.
    destruct (pull_items src (length xs) g1) as [[xs' g'']|] eqn:Hrest;
      simplify_eq.
    destruct (steps_item g st x g1) as (tr1 & st1 & Hs1 & Hraw1 & Hc1);
      [|done|].
    { unfold limit_allows_one_more.
      destruct (Z.ltb_spec (limit cfg) 0); [done|].
      apply Z.ltb_lt. simpl in Hgate. lia. }
    destruct (IH g1 st1 g' Hrest) as (tr2 & st' & Hs2 & Hraw2 & Hc2).
    { simpl in Hgate. lia. }
    exists (tr1 ++ tr2), st'. split; [by eapply steps_trans|].
    split; [by rewrite raw_app, Hraw1, Hraw2|]. simpl length. lia.
Qed.

(** The end of the run, once the inner generator returns. *)
Lemma steps_finish g st evs :
  generator_with_conditions cfg src g st = (evs, GwcReturn src) ->
  exists tr, steps cfg src (Pulling g, st) tr (Returned, fresh) /\ raw tr = [].
Proof.
  intros Hgwc.
  assert (raw evs = []) as Hraw.
  { unfold generator_with_conditions in Hgwc.
    repeat (case_match; simplify_eq/=); done. }
  destruct (step cfg src (Pulling g, st)) as [[evs' m1]|] eqn:Hstep; [|done].
  pose proof (steps_one _ _ _ Hstep) as Hs1. simpl in Hstep.
  unfold generator_with_buffer, after_loop in Hstep. rewrite Hgwc in Hstep.
  repeat (case_match; simplify_eq/=);
    first
      [ by (eexists; split; [exact Hs1|])
      | eexists; split;
        [eapply steps_trans; [exact Hs1|exact (steps_flush None _)]|];
        by rewrite raw_app, raw_emits, Hraw ].
Qed.

(** What the consumer gets from a run that returns, started with an empty
    buffer. *)
Lemma steps_output st tr st' :
  buffer st = [] -> steps cfg src (iter src st) tr (Returned, st') ->
  emitted tr =
    deliver cfg (transform_x cfg <$>
                 drop (Z.to_nat (offset cfg - counter st)) (raw tr)).
Proof.
  intros Hbuf Hs.
  pose proof (steps_kept cfg src _ _ _ Hs) as Hkept.
  unfold owed in Hkept. simpl in Hkept.
  replace (counter st + 0) with (counter st) in Hkept by lia.
  rewrite <- Hkept. unfold deliver.
  destruct (Z.gtb_spec (shuffle_buffer cfg) 1) as [Hsb|Hsb].
  - rewrite (steps_buffered cfg src _ _ _ ltac:(lia) Hs).
    unfold to_emit. simpl. rewrite Hbuf.
    by rewrite buffered_chunks by (simpl; lia).
  - by destruct (steps_unbuffered cfg src (iter src st) tr _ Hsb
                   ltac:(intros i k; simpl; discriminate) Hs) as [-> _].
Qed.

Lemma traversal_output (xs : list A) (g' : gen src) (st : RunState A) :
  buffer st = [] ->
  pull_items src (length xs) (generator src) = Some (xs, g') ->
  limit cfg < 0 \/
  Z.of_nat (length xs) <= Z.max 0 (limit cfg + offset cfg - counter st) ->
  next src g' = StopIteration \/
  (0 <= limit cfg /\
   limit cfg + offset cfg - counter st <= Z.of_nat (length xs)) ->
  exists fuel, forall fuel', (fuel <= fuel')%nat ->
    list_of cfg src fuel' st =
      (Listed (deliver cfg
                 (transform_x cfg <$>
                  drop (Z.to_nat (offset cfg - counter st)) xs)),
       fresh).
Proof.
  intros Hbuf Hpull Hopen Hend.
  destruct (steps_items xs (generator src) st g' Hpull Hopen)
    as (tr1 & st1 & Hs1 & Hraw1 & Hc1).
  assert (exists evs,
            generator_with_conditions cfg src g' st1 = (evs, GwcReturn src))
    as [evs Hgwc].
  { unfold generator_with_conditions, limit_allows_one_more.
    destruct Hend as [Hstop|[Hlim Hlen]].
    - rewrite Hstop. repeat case_match; by eexists.
    - destruct (Z.ltb_spec (limit cfg) 0); [lia|].
      destruct (Z.ltb_spec (counter st1) (limit cfg + offset cfg)); [lia|].
      by eexists. }
  destruct (steps_finish g' st1 evs Hgwc) as (tr2 & Hs2 & Hraw2).
  assert (steps cfg src (iter src st) (tr1 ++ tr2) (Returned, fresh)) as Hs.
  { change (tr1 ++ tr2) with ([] ++ (tr1 ++ tr2)).
    econstructor; [reflexivity|]. by eapply steps_trans. }
  destruct (steps_run cfg src _ _ _ Hs) as [fuel Hrun].
  exists fuel. intros fuel' Hle.
  unfold list_of. rewrite (run_more cfg src fuel fuel' _ _ _ Hrun) by done.
  simpl. rewrite (steps_output st _ _ Hbuf Hs).
  by rewrite raw_app, Hraw1, Hraw2, app_nil_r.
Qed.
End Traversal.

(** X8.  With [limit >= 0] over a source that has [limit + offset] items to
    give, [list(ds)] on a pipeline in its initial state returns, and what it
    returns is those items without the first [offset], each passed through
    the transforms, as they come when [shuffle_buffer <= 1] and else
    shuffled piece by piece; the pipeline is back in its initial state. *)
Theorem limited_traversal_output {R : RandomLib} {A : Type}
    (cfg : Config A) (src : Source A) (xs : list A) (g' : gen src) :
  0 <= limit cfg ->
  pull_items src (Z.to_nat (limit cfg + offset cfg)) (generator src)
    = Some (xs, g') ->
  exists fuel, forall fuel', (fuel <= fuel')%nat ->
    list_of cfg src fuel' fresh =
      (Listed (deliver cfg
                 (transform_x cfg <$> drop (Z.to_nat (offset cfg)) xs)),
       fresh).
Proof.
  intros Hlim Hpull.
  assert (length xs = Z.to_nat (limit cfg + offset cfg)) as Hlen.
  { clear Hlim. revert Hpull. generalize (generator src).
    generalize (Z.to_nat (limit cfg + offset cfg)). intros n. revert xs.
    induction n as [|n IH]; intros xs g Hpull; simpl in Hpull;
      simplify_eq; [done|].
    destruct (next src g) as [x g1| |e]; try done.
    destruct (pull_items src n g1) as [[xs' g'']|] eqn:Hrest; simplify_eq.
    simpl. f_equal. by eapply IH. }
  rewrite <- Hlen in Hpull.
  destruct (traversal_output cfg src xs g' fresh eq_refl Hpull)
    as [fuel Hfuel]; [simpl; lia..|].
  exists fuel. intros fuel' Hle. rewrite (Hfuel fuel' Hle). simpl.
  by replace (offset cfg - 0) with (offset cfg) by lia.
Qed.

Lemma limited_traversal_output_witness :
  exists fuel, forall fuel', (fuel <= fuel')%nat ->
    list_of (R := Mersenne.lib) (Tests.dataset 3 42 1 4) Tests.IntegersDataset
      fuel' fresh =
      (Listed (deliver (R := Mersenne.lib) (Tests.dataset 3 42 1 4)
                 (transform_x (Tests.dataset 3 42 1 4) <$>
                  drop (Z.to_nat 1) [0; 1; 2; 3; 4])),
       fresh).
Proof.
  apply (limited_traversal_output (R := Mersenne.lib) (Tests.dataset 3 42 1 4)
           Tests.IntegersDataset [0; 1; 2; 3; 4] 5);
    [discriminate|reflexivity].
Defined.

(** X9.  With [limit < 0] over a source that gives the items [xs] and then
    ends, [list(ds)] on a pipeline in its initial state returns all of them
    but the first [offset], each passed through the transforms, as they come
    or shuffled piece by piece; the pipeline is back in its initial state. *)
Theorem exhaustive_traversal_output {R : RandomLib} {A : Type}
    (cfg : Config A) (src : Source A) (xs : list A) (g' : gen src) :
  limit cfg < 0 ->
  pull_items src (length xs) (generator src) = Some (xs, g') ->
  next src g' = StopIteration ->
  exists fuel, forall fuel', (fuel <= fuel')%nat ->
    list_of cfg src fuel' fresh =
      (Listed (deliver cfg
                 (transform_x cfg <$> drop (Z.to_nat (offset cfg)) xs)),
       fresh).
Proof.
  intros Hlim Hpull Hstop.
  destruct (traversal_output cfg src xs g' fresh eq_refl Hpull)
    as [fuel Hfuel]; [by left..|].
  exists fuel. intros fuel' Hle. rewrite (Hfuel fuel' Hle). simpl.
  by replace (offset cfg - 0) with (offset cfg) by lia.
Qed.

Lemma exhaustive_traversal_output_witness :
  exists fuel, forall fuel', (fuel <= fuel')%nat ->
    list_of (R := Mersenne.lib) (Tests.dataset 3 42 1 (-1))
      (Tests.RangeDataset 5) fuel' fresh =
      (Listed (deliver (R := Mersenne.lib) (Tests.dataset 3 42 1 (-1))
                 (transform_x (Tests.dataset 3 42 1 (-1)) <$>
                  drop (Z.to_nat 1) [0; 1; 2; 3; 4])),
       fresh).
Proof.
  apply (exhaustive_traversal_output (R := Mersenne.lib)
           (Tests.dataset 3 42 1 (-1)) (Tests.RangeDataset 5)
           [0; 1; 2; 3; 4] 5); reflexivity.
Defined.

(** ** Transforms do not steer the traversal *)

Lemma emitted_map_event {A : Type} (f : A -> A) (tr : list (event A)) :
  emitted (map_event f <$> tr) = f <$> emitted tr.
Proof.
  induction tr as [|ev tr IH]; [done|].
  destruct ev; csimpl; by rewrite ?IH.
Qed.

Lemma pulls_map_event {A : Type} (f : A -> A) (tr : list (event A)) :
  pulls (map_event f <$> tr) = pulls tr.
Proof.
  induction tr as [|ev tr IH]; [done|].
  destruct ev; csimpl; by rewrite ?IH.
Qed.

Section Transforms.
Context {R : RandomLib} {A : Type}.
Variable cfg : Config A.
Variable src : Source A.
Variable f : A -> A.

#[local] Abbreviation machine := (pc (gen src) * RunState A)%type.

Lemma transform_x_then (x : A) :
  transform_x (then_transform cfg f) x = f (transform_x cfg x).
Proof. unfold transform_x. simpl. by rewrite fold_left_app. Qed.

Lemma step_then_transform (p : pc (gen src)) (st : RunState A) :
  step (then_transform cfg f) src (p, map_state f st) =
  (fun r : list (event A) * machine =>
     (map_event f <$> fst r, (fst (snd r), map_state f (snd (snd r)))))
    <$> step cfg src (p, st).
Proof.
  destruct p as [|g|g|i k| |e]; simpl; try done.
  - unfold generator_with_buffer, generator_with_conditions, after_loop,
      limit_allows_one_more, flush_buffer_shuffle, append, count, reset,
      map_state.
    simpl. rewrite !length_fmap.
    destruct (limit cfg <? 0); simpl;
      [|destruct (counter st <? limit cfg + offset cfg); simpl];
      repeat (case_match; simplify_eq/=);
      rewrite ?transform_x_then, ?length_app, ?length_fmap in *;
      simpl in *; try congruence;
      rewrite ?shuffle_fmap, ?fmap_app, ?transform_x_then; try done.
  - rewrite list_lookup_fmap. destruct (buffer st !! i); [done|].
    by destruct k.
Qed.

Lemma run_then_transform (fuel : nat) :
  forall (p : pc (gen src)) (st : RunState A),
    run (then_transform cfg f) src fuel (p, map_state f st) =
    (map_event f <$> fst (run cfg src fuel (p, st)),
     (fst (snd (run cfg src fuel (p, st))),
      map_state f (snd (snd (run cfg src fuel (p, st)))))).
Proof.
  induction fuel as [|fuel IH]; intros p st; [done|].
  rewrite !run_S, step_then_transform.
  destruct (step cfg src (p, st)) as [[evs [p1 st1]]|]; [|done].
  cbn [fmap option_fmap option_map fst snd]. rewrite IH.
  destruct (run cfg src fuel (p1, st1)) as [tr [p2 st2]].
  cbn [fst snd]. by rewrite fmap_app.
Qed.
End Transforms.

(** X10.  A transform put at the end of the chain changes nothing in the
    course of a traversal: the same pulls are made, the traversal stands at
    the same point with the same counter, and what the consumer has got is
    what it would have got without the transform, each item passed through
    it.  This holds with and without a shuffle buffer. *)
Theorem last_transform_maps_output {R : RandomLib} {A : Type}
    (cfg : Config A) (src : Source A) (f : A -> A) (fuel : nat) :
  fst (list_of (then_transform cfg f) src fuel fresh) =
    map_listed f (fst (list_of cfg src fuel fresh)) /\
  counter (snd (list_of (then_transform cfg f) src fuel fresh)) =
    counter (snd (list_of cfg src fuel fresh)) /\
  pulls (fst (run (then_transform cfg f) src fuel (iter src fresh))) =
    pulls (fst (run cfg src fuel (iter src fresh))).
Proof.
  unfold list_of, iter.
  change (@fresh A) with (map_state f (@fresh A)) at 1 3 5.
  rewrite !run_then_transform.
  destruct (run cfg src fuel (Created, fresh)) as [tr [p st]]. simpl.
  split; [|split].
  - destruct p; simpl; by rewrite ?emitted_map_event.
  - done.
  - apply pulls_map_event.
Qed.

(** ** The primality test *)

(** Quotient and remainder by 2, for [lia]. *)
Ltac halve e :=
  pose proof (Z.div_mod e 2 ltac:(lia));
  pose proof (Z.mod_pos_bound e 2 ltac:(lia)).

Lemma range_odd (a b i : Z) :
  i ∈ Primes.range a b 2 <-> exists k, 0 <= k /\ i = a + 2 * k /\ i < b.
Proof.
  unfold Primes.range. rewrite list_elem_of_fmap.
  halve (b - a + 2 - 1). split.
  - intros (k & -> & Hk). apply elem_of_seqZ in Hk. exists k. lia.
  - intros (k & Hk & -> & Hb). exists k. split; [done|].
    apply elem_of_seqZ. lia.
Qed.

(** A divisor of [n] strictly between 1 and [n] comes with one that is at
    most the square root of [n]. *)
Lemma small_divisor (n d : Z) :
  1 < d < n -> (d | n) -> exists e, 1 < e /\ e <= Z.sqrt n /\ (e | n).
Proof.
  intros Hd [q Hq].
  assert (1 < q) as Hq1 by nia.
  destruct (Z.le_gt_cases d q).
  - exists d. split; [lia|]. split; [|by exists q].
    apply Z.sqrt_le_square; nia.
  - exists q. split; [lia|]. split; [|exists d; lia].
    apply Z.sqrt_le_square; nia.
Qed.

(** X11.  [is_prime] of tests/test_primes.py is right: it answers [True] on
    the prime numbers (those above 1 with no divisor strictly between 1 and
    themselves) and on nothing else, negative numbers, 0 and 1 included. *)
Theorem is_prime_correct (n : Z) : Primes.is_prime n = true <-> Z.prime n.
Proof.
  unfold Primes.is_prime, Z.prime.
  destruct (Z.leb_spec n 1) as [Hle|Hgt].
  { split; [done|]. intros [Hp _]. lia. }
  destruct (Z.eqb_spec n 2) as [->|Hne2].
  { split; [|done]. intros _. split; [lia|]. intros d Hd. lia. }
  destruct (Z.eqb_spec (n mod 2) 0) as [Heven|Hodd].
  { split; [done|]. intros [_ Hp]. destruct (Hp 2); [lia|].
    apply Z.mod_divide; [lia|done]. }
  rewrite forallb_forall. split.
  - intros Hall. split; [done|]. intros d Hd Hdiv.
    destruct (small_divisor n d Hd Hdiv) as (e & He1 & He2 & Hediv).
    assert (e mod 2 <> 0) as Heodd.
    { intros He. apply Hodd. destruct Hediv as [q ->].
      rewrite <- Z.mul_mod_idemp_r, He by lia.
      by rewrite Z.mul_0_r. }
    assert (e ∈ Primes.range 3 (Z.sqrt n + 1) 2) as Hin.
    { apply range_odd. exists ((e - 3) / 2).
      halve (e - 3). halve e. lia. }
    apply list_elem_of_In, Hall in Hin.
    apply negb_true_iff, Z.eqb_neq in Hin. apply Hin.
    apply Z.mod_divide; [lia|done].
  - intros [_ Hp] i Hin. apply list_elem_of_In, range_odd in Hin
      as (k & Hk & -> & Hb).
    apply negb_true_iff, Z.eqb_neq. intros Hmod.
    apply Z.mod_divide in Hmod; [|lia].
    pose proof (Z.sqrt_lt_lin n ltac:(lia)).
    apply (Hp (3 + 2 * k)); [lia|done].
Qed.

(** ** Why a traversal returns, and where the kept items are *)

Section Conservation.
Context {R : RandomLib} {A : Type}.
Variable cfg : Config A.
Variable src : Source A.

#[local] Abbreviation machine := (pc (gen src) * RunState A)%type.

Lemma not_alive (m : machine) :
  ~ alive src m ->
  draining src m \/ exists e, fst m = Failed e.
Proof.
  destruct m as [[|g|g|i [g|]| |e] st]; unfold alive, draining; simpl;
    intros Hna; try (by destruct Hna); eauto.
Qed.

Lemma alive_dec (m : machine) : alive src m \/ ~ alive src m.
Proof.
  destruct m as [[|g|g|i [g|]| |e] st]; unfold alive; simpl; auto.
Qed.

(** A machine that is still at work can only come to return through a gate
    that gave [False] or a pull that found the source ended. *)
Lemma steps_return_cause m tr st' :
  steps cfg src m tr (Returned, st') -> alive src m ->
  (exists os, pulls tr = os ++ [GotStop]) \/
  (0 <= limit cfg /\
   limit cfg + offset cfg <= counter (snd m) + owed src m + items tr).
Proof.
  intros Hs. remember (Returned, st') as m' eqn:Em'.
  induction Hs as [m|m evs m1 tr m2 Hstep Hs IH]; intros Halive; subst.
  - by destruct Halive.
  - unfold pulls. rewrite omap_app, items_app. fold (pulls evs) (pulls tr).
    destruct (alive_dec m1) as [Halive1|Hdead].
    + assert (fst m1 <> Returned) as Hne
        by (destruct m1 as [[] ?]; simpl; try done; by destruct Halive1).
      pose proof (step_counter cfg src _ _ _ Hstep Hne) as Hc.
      destruct (IH eq_refl Halive1) as [[os ->]|[Hlim Hle]].
      * left. exists (pulls evs ++ os). by rewrite (assoc (++)).
      * right. split; [done|lia].
    + apply not_alive in Hdead as [Hdrain|[e He]].
      * pose proof (draining_steps cfg src _ _ _ Hs Hdrain) as Hemit.
        apply emits_only in Hemit as (_ & Hpulls & Hraw).
        rewrite Hpulls, (items_raw tr), Hraw, app_nil_r. clear IH.
        destruct m as [p st]. unfold alive, owed, draining in *.
        destruct p as [|g|g|i k| |e]; simpl in Hstep, Halive; try done;
          simplify_eq/=.
        -- by destruct Hdrain as [?|[? ?]].
        -- unfold generator_with_buffer, generator_with_conditions,
             after_loop, limit_allows_one_more in Hstep.
           repeat (case_match; simplify_eq/=); tests;
             try (by destruct Hdrain as [?|[? ?]]);
             try first [ left; by exists []
                       | right; unfold items; simpl; lia ].
        -- by destruct Hdrain as [?|[? ?]].
        -- destruct k as [g|]; [|done].
           destruct (buffer st !! i); simplify_eq/=;
             by destruct Hdrain as [?|[? ?]].
      * destruct m1 as [p1 st1]. simpl in He. subst p1.
        by apply steps_halted in Hs as [_ ?].
Qed.

(** Every kept item has been handed to the consumer or is in the buffer. *)
Lemma steps_conserve st tr m' :
  buffer st = [] -> steps cfg src (iter src st) tr m' ->
  kept tr ≡ₚ emitted tr ++ pending src m'.
Proof.
  intros Hbuf Hs.
  destruct (Z.gtb_spec (shuffle_buffer cfg) 1) as [Hsb|Hsb].
  - pose proof (steps_pending cfg src _ _ _ ltac:(lia) Hs) as Hp.
    unfold pending at 1 in Hp. simpl in Hp. by rewrite Hbuf in Hp.
  - destruct (steps_unbuffered cfg src (iter src st) tr m' Hsb
                ltac:(intros i k; simpl; discriminate) Hs) as [-> Hend].
    assert (pending src m' = []) as ->; [|by rewrite app_nil_r].
    assert (forall m tr m', steps cfg src m tr m' ->
              (forall i k, fst m <> Flushing i k) ->
              forall i k, fst m' <> Flushing i k) as Hinv.
    { clear -Hsb. induction 1 as [|[p st] evs m1 tr m2 Hstep Hs IH];
        [done|].
      intros Hp. apply IH. clear IH Hs.
      destruct p as [|g|g|i k| |e]; simpl in Hstep; simplify_eq/=;
        try done.
      - unfold generator_with_buffer, generator_with_conditions,
          after_loop in Hstep.
        repeat (case_match; simplify_eq/=); tests; try lia; done.
      - by destruct (Hp i k). }
    pose proof (Hinv _ _ _ Hs ltac:(intros i k; simpl; discriminate)) as Hnf.
    unfold pending. destruct m' as [p st']. simpl in *.
    destruct Hend as [->|Hb]; [done|]. rewrite Hb, Hbuf.
    destruct p; try done. by destruct (Hnf i k).
Qed.
End Conservation.

(** X12.  A traversal does not return early: when [list(ds)] returns, either
    the last pull found the source ended, or [limit >= 0] and the counter had
    come to [limit + offset], that is the traversal had pulled
    [limit + offset - counter] items. *)
Theorem returns_only_when_done {R : RandomLib} {A : Type}
    (cfg : Config A) (src : Source A) (fuel : nat) (st st' : RunState A)
    (tr : list (event A)) :
  run cfg src fuel (iter src st) = (tr, (Returned, st')) ->
  (exists os, pulls tr = os ++ [GotStop]) \/
  (0 <= limit cfg /\ limit cfg + offset cfg <= counter st + items tr).
Proof.
  intros Hrun.
  destruct (steps_return_cause cfg src _ _ _ (run_steps _ _ _ _ _ _ Hrun) I)
    as [?|[Hlim Hle]]; [by left|right].
  unfold owed in Hle. simpl in Hle. split; [done|lia].
Qed.

Lemma returns_only_when_done_witness :
  (exists os, pulls (A := Z)
     [EvGate true; EvPull (GotItem 0); EvGate true; EvPull GotStop] =
     os ++ [GotStop]) \/
  (0 <= limit (Tests.dataset 1 42 3 0) /\
   limit (Tests.dataset 1 42 3 0) + offset (Tests.dataset 1 42 3 0) <=
   counter (A := Z) fresh +
   items (A := Z)
     [EvGate true; EvPull (GotItem 0); EvGate true; EvPull GotStop]).
Proof.
  apply (returns_only_when_done (R := Mersenne.lib) (Tests.dataset 1 42 3 0)
           (Tests.RangeDataset 1) 10 fresh fresh).
  reflexivity.
Defined.

(** X13.  At every point of a traversal that started with an empty buffer,
    ended or not, failed or not, the items kept so far are those handed to
    the consumer together with those waiting in the buffer (from the
    iterator's position on, during a flush): no item is made up, handed over
    twice or lost. *)
Theorem kept_delivered_or_buffered {R : RandomLib} {A : Type}
    (cfg : Config A) (src : Source A) (fuel : nat) (st : RunState A) :
  buffer st = [] ->
  kept (fst (run cfg src fuel (iter src st))) ≡ₚ
  emitted (fst (run cfg src fuel (iter src st))) ++
  pending src (snd (run cfg src fuel (iter src st))).
Proof.
  intros Hbuf.
  destruct (run cfg src fuel (iter src st)) as [tr m'] eqn:Hrun.
  apply (steps_conserve cfg src st tr m' Hbuf (run_steps _ _ _ _ _ _ Hrun)).
Qed.

Lemma kept_delivered_or_buffered_witness :
  kept (fst (run (R := Mersenne.lib) (Tests.dataset 3 42 0 5)
               Tests.IntegersDataset 7 (iter _ fresh))) ≡ₚ
  emitted (fst (run (R := Mersenne.lib) (Tests.dataset 3 42 0 5)
                  Tests.IntegersDataset 7 (iter _ fresh))) ++
  pending Tests.IntegersDataset
    (snd (run (R := Mersenne.lib) (Tests.dataset 3 42 0 5)
            Tests.IntegersDataset 7 (iter _ fresh))).
Proof.
  apply (kept_delivered_or_buffered (R := Mersenne.lib)
           (Tests.dataset 3 42 0 5) Tests.IntegersDataset 7 fresh).
  reflexivity.
Defined.
